(** * federalist-garden-build: the build tasks of [tasks/build.py]

    A shallow embedding of the task module: the Python functions become
    computations in a small exception-and-event monad over an explicit
    machine state (the file system and the pyinvoke context's prefix and
    directory stacks).  Everything the module reaches through a library
    (the shell behind [ctx.run], [requests.get], [json.load],
    [os.listdir], [shutil.move], the text codec) is a field of a
    [machine] record, so the theorems hold for every behaviour of those
    collaborators; where a theorem needs what a library does, it names
    that behaviour: [move_into_dir] is the standard library's
    [shutil.move] into a directory, [generate_env] the environment
    pyinvoke starts a subprocess with.

    Conventions:
    - the constants of [tasks/common.py] and [NVM_DIR] are parameters
      ([config]); the paths among them are absolute and normalised;
    - pyinvoke is taken with its defaults: [ctx.run] raises
      [UnexpectedExit] on a non-zero exit code ([warn=False]), the
      [env] argument is laid over the variables of the process
      ([replace_env=False]), [Context.cwd] escapes the spaces of a
      directory, and a prerequisite listed in [pre] runs once, before
      the task;
    - an event records the [env] argument of [ctx.run] as the module
      passes it;
    - file contents and response bodies are byte strings; a text file
      is decoded when it is read, by the machine's codec. *)

From Stdlib Require Import Ascii ZArith Lia.
From stdpp Require Import base option list strings gmap.

Local Open Scope string_scope.
Local Open Scope Z_scope.
Local Open Scope list_scope.

(** ** Paths, files and Python values *)

(** An absolute, normalised path is the list of its components:
    [os.path.join d name] is [d ++ [name]]. *)
Abbreviation path := (list string).

Definition render (p : path) : string :=
  match p with
  | [] => "/"
  | _ => foldr (fun c acc => "/" +:+ c +:+ acc) "" p
  end.

Inductive node :=
| RegFile (content : string)
| Directory.

Abbreviation filesystem := (gmap (list string) node).

(** [Path.is_file()] *)
Definition is_file (fs : filesystem) (p : path) : bool :=
  match fs !! p with
  | Some (RegFile _) => true
  | _ => false
  end.

Definition is_dir (fs : filesystem) (p : path) : bool :=
  match fs !! p with
  | Some Directory => true
  | _ => false
  end.

Definition parent (p : path) : path := removelast p.

(** A Python [str] object: its identity and its value.  [is] compares
    identities, [==] compares values.  Two objects of equal value need
    not be the same object. *)
Record pystr := PyStr { oid : nat; chars : string }.

Definition py_is (a b : pystr) : bool := Nat.eqb (oid a) (oid b).
Definition py_eq (a b : pystr) : bool := String.eqb (chars a) (chars b).

(** What [json.load] builds: [dict] (pairs in document order, the last
    binding of a key wins), [list], [str], numbers (kept as their
    lexeme), [True]/[False] and [None]. *)
#[warnings="-register-all"]
Inductive json :=
| JNull
| JBool (b : bool)
| JNumber (lexeme : string)
| JString (s : string)
| JArray (items : list json)
| JObject (members : list (string * json)).

Inductive exn :=
| UnexpectedExit (code : Z)
| FileExistsError (p : path)
| FileNotFoundError (p : path)
| IsADirectoryError (p : path)
| NotADirectoryError (p : path)
| JSONDecodeError
| UnicodeDecodeError
| AttributeError
| TypeError
| ForeignError (msg : string).

(** [requests.Response], as far as the module looks at it. *)
Record response := Response { status_code : Z; content : string }.

(** The observable steps of a run, in order. *)
Inductive event :=
| ELog (msg : string)
| ERun (cmd line : string) (env : gmap string string) (code : Z)
| EIsFile (p : path) (b : bool)
| ERead (p : path)
| ETruncate (p : path)
| EAppend (p : path) (data : string)
| EMakedirs (p : path)
| EListdir (p : path)
| EMove (src dst : path)
| ERmtree (p : path)
| EGet (url : string) (status : Z).

(** The machine state the tasks thread: the file system and the two
    stacks pyinvoke's [Context] keeps for [prefix] and [cd]. *)
Record state := State {
  fs : gmap (list string) node;
  command_prefixes : list string;
  command_cwds : list string;
}.

Record outcome (A : Type) := Outcome {
  res : exn + A;
  st : state;
  evs : list event;
}.
Arguments Outcome {A} _ _ _.
Arguments res {A} _.
Arguments st {A} _.
Arguments evs {A} _.

(** The collaborators outside the module.  [shell] is the process that
    [ctx.run] spawns: from the file system, the full command line and
    the [env] argument to an exit code, the captured stdout and the file
    system it leaves.  [text_readline] is [f.readline()] on a freshly
    opened text file that holds the given bytes: the first line, decoded
    by the codec of the process's locale, or the error the decoder
    raises. *)
Record machine := Machine {
  shell : gmap (list string) node -> string -> gmap string string ->
          Z * string * gmap (list string) node;
  os_listdir : gmap (list string) node -> list string -> exn + list pystr;
  os_move : gmap (list string) node -> list string -> list string ->
            exn + gmap (list string) node;
  requests_get : string -> exn + response;
  json_load : string -> exn + json;
  text_readline : string -> exn + list N;
}.

(** The constants of [tasks/common.py] and the one environment variable
    read at import time. *)
Record config := Config {
  NVM_DIR : list string;
  CLONE_DIR_PATH : list string;
  WORKING_DIR : list string;
  SITE_BUILD_DIR : pystr;
  SITE_BUILD_DIR_PATH : list string;
}.

(** ** The monad *)

Definition M (A : Type) : Type := state -> outcome A.

Definition ret {A} (a : A) : M A := fun s => Outcome (inr a) s [].

Definition raise {A} (e : exn) : M A := fun s => Outcome (inl e) s [].

Definition bind {A B} (m : M A) (f : A -> M B) : M B := fun s =>
  let o := m s in
  match res o with
  | inl e => Outcome (inl e) (st o) (evs o)
  | inr a => let o' := f a (st o) in
             Outcome (res o') (st o') (evs o ++ evs o')
  end.

Notation "x <- c1 ;; c2" := (bind c1 (fun x => c2))
  (at level 100, c1 at next level, right associativity).
Notation "c1 ;; c2" := (bind c1 (fun _ => c2))
  (at level 100, right associativity).

(** [try: m finally: fin] *)
Definition finally {A} (m : M A) (fin : M unit) : M A := fun s =>
  let o := m s in
  let o' := fin (st o) in
  Outcome (match res o' with inl e => inl e | inr _ => res o end)
          (st o') (evs o ++ evs o').

Definition emit (e : event) : M unit := fun s => Outcome (inr tt) s [e].

Definition lift {A} (r : exn + A) : M A :=
  match r with
  | inl e => raise e
  | inr a => ret a
  end.

Fixpoint for_each {A} (f : A -> M unit) (l : list A) : M unit :=
  match l with
  | [] => ret tt
  | x :: rest => f x ;; for_each f rest
  end.

(** [LOGGER.info(msg)] *)
Definition log_info (msg : string) : M unit := emit (ELog msg).

(** ** Strings as the module uses them *)

(** [needle in hay] on two [str] values *)
Fixpoint is_substring (needle hay : string) : bool :=
  String.prefix needle hay ||
  match hay with
  | EmptyString => false
  | String _ rest => is_substring needle rest
  end.

(** A decoded [str] is the list of its code points. *)
Definition code_points (s : string) : list N :=
  map N_of_ascii (String.list_ascii_of_string s).

(** [str.isspace] on one character: the white space of Unicode as
    CPython has it (U+0009..000D, U+001C..0020, U+0085, U+00A0, U+1680,
    U+2000..200A, U+2028, U+2029, U+202F, U+205F, U+3000). *)
Definition py_isspace (c : N) : bool :=
  ((9 <=? c) && (c <=? 13) || (28 <=? c) && (c <=? 32) ||
   (c =? 133) || (c =? 160) || (c =? 5760) ||
   (8192 <=? c) && (c <=? 8202) ||
   (c =? 8232) || (c =? 8233) || (c =? 8239) || (c =? 8287) || (c =? 12288))%N.

Fixpoint lstrip (s : list N) : list N :=
  match s with
  | c :: rest => if py_isspace c then lstrip rest else s
  | [] => []
  end.

Fixpoint rstrip (s : list N) : list N :=
  match s with
  | [] => []
  | c :: rest =>
      match rstrip rest with
      | [] => if py_isspace c then [] else [c]
      | r => c :: r
      end
  end.

(** [str.strip()] *)
Definition strip (s : list N) : list N := rstrip (lstrip s).

Definition LF : ascii := ascii_of_nat 10.
Definition CR : ascii := ascii_of_nat 13.

(** The first line of a decoded text, with its line end, which
    universal-newlines mode reads as a single LF. *)
Fixpoint first_line (s : list N) : list N :=
  match s with
  | [] => []
  | c :: rest =>
      if ((c =? 10) || (c =? 13))%N then [10%N] else c :: first_line rest
  end.

(** [f.readline()] on a freshly opened text file under an ASCII locale:
    a byte outside ASCII makes the decoder raise. *)
Definition ascii_readline (bytes : string) : exn + list N :=
  if forallb (fun c => (c <? 128)%N) (code_points bytes)
  then inr (first_line (code_points bytes))
  else inl UnicodeDecodeError.

(** Truthiness of a decoded [str] *)
Definition truthy_text (s : list N) : bool :=
  match s with
  | [] => false
  | _ => true
  end.

(** Truthiness of a [str] *)
Definition truthy (s : string) : bool :=
  match s with
  | EmptyString => false
  | _ => true
  end.

(** The slices [iter_content(chunk_size=n)] yields from a body that is
    already in memory: [room] characters still fit in the slice [cur]
    that is being filled. *)
Fixpoint slices_aux (n room : nat) (cur s : string) : list string :=
  match s with
  | EmptyString => match cur with EmptyString => [] | _ => [cur] end
  | String c rest =>
      match room with
      | O => cur :: slices_aux n (pred n) (String c EmptyString) rest
      | S room' => slices_aux n room' (cur +:+ String c EmptyString) rest
      end
  end.

Definition iter_slices (n : nat) (s : string) : list string :=
  slices_aux n n EmptyString s.

(** ** Python's [dict.get] and [in] on decoded JSON *)

Fixpoint dict_lookup (k : string) (members : list (string * json)) : option json :=
  match members with
  | [] => None
  | (k', v) :: rest =>
      match dict_lookup k rest with
      | Some later => Some later
      | None => if String.eqb k k' then Some v else None
      end
  end.

(** [obj.get(k, default)]: only a [dict] has the method. *)
Definition py_get (obj : json) (k : string) (dflt : json) : exn + json :=
  match obj with
  | JObject members => inr (default dflt (dict_lookup k members))
  | _ => inl AttributeError
  end.

(** [needle in container] *)
Definition py_in (needle : string) (container : json) : exn + bool :=
  match container with
  | JObject members => inr (existsb (fun kv => String.eqb needle (fst kv)) members)
  | JArray items =>
      inr (existsb (fun x => match x with
                             | JString s => String.eqb needle s
                             | _ => false
                             end) items)
  | JString s => inr (is_substring needle s)
  | _ => inl TypeError
  end.

(** ** pyinvoke's [Context]: prefixes, directories and [run] *)

(** The two context managers the module uses, [ctx.prefix(command)]
    and [ctx.cd(dir)]. *)
Inductive cm :=
| Prefix (command : string)
| Cd (dir : string).

Definition enter (c : cm) : M unit := fun s =>
  match c with
  | Prefix p =>
      Outcome (inr tt) (State (fs s) (command_prefixes s ++ [p]) (command_cwds s)) []
  | Cd d =>
      Outcome (inr tt) (State (fs s) (command_prefixes s) (command_cwds s ++ [d])) []
  end.

Definition leave (c : cm) : M unit := fun s =>
  match c with
  | Prefix _ =>
      Outcome (inr tt) (State (fs s) (removelast (command_prefixes s)) (command_cwds s)) []
  | Cd _ =>
      Outcome (inr tt) (State (fs s) (command_prefixes s) (removelast (command_cwds s))) []
  end.

(** [with c: body] *)
Definition with_cm {A} (c : cm) (body : M A) : M A :=
  enter c ;; finally body (leave c).

(** [contextlib.ExitStack]: the managers entered so far, oldest first.
    [enter_contexts] is the loop [for cm in contexts:
    stack.enter_context(cm)]; leaving the stack's [with] block leaves
    them newest first. *)
Fixpoint enter_contexts (stack : list cm) (contexts : list cm) : M (list cm) :=
  match contexts with
  | [] => ret stack
  | c :: rest => enter c ;; enter_contexts (stack ++ [c]) rest
  end.

Definition with_stack {A} (stack : list cm) (body : M A) : M A :=
  finally body (for_each leave (rev stack)).

Definition is_anchor (p : string) : bool :=
  String.prefix "~" p || String.prefix "/" p.

(** The directories from the last absolute one on. *)
Fixpoint from_last_anchor (l : list string) : list string :=
  match l with
  | [] => []
  | p :: rest => if existsb is_anchor rest then from_last_anchor rest else p :: rest
  end.

Fixpoint ends_with_slash (s : string) : bool :=
  match s with
  | EmptyString => false
  | String c EmptyString => Ascii.eqb c "/"
  | String _ rest => ends_with_slash rest
  end.

Definition os_path_join (a b : string) : string :=
  if String.prefix "/" b then b
  else if String.eqb a "" || ends_with_slash a then a +:+ b
  else a +:+ "/" +:+ b.

(** [path.replace(" ", r"\ ")]: a backslash before every space *)
Fixpoint escape_spaces (s : string) : string :=
  match s with
  | EmptyString => EmptyString
  | String c rest =>
      if Ascii.eqb c " "
      then String (ascii_of_nat 92) (String " " (escape_spaces rest))
      else String c (escape_spaces rest)
  end.

(** [Context.cwd]: the directories from the last absolute one on, each
    with its spaces escaped, joined. *)
Definition cwd (s : state) : string :=
  match map escape_spaces (from_last_anchor (command_cwds s)) with
  | [] => ""
  | a :: rest => fold_left os_path_join rest a
  end.

(** [Context._prefix_commands] *)
Definition prefix_commands (s : state) (command : string) : string :=
  let prefixes := command_prefixes s in
  let current_directory := cwd s in
  let prefixes :=
    if truthy current_directory then ("cd " +:+ current_directory) :: prefixes
    else prefixes in
  String.concat " && " (prefixes ++ [command]).

(** [Runner.generate_env] with [replace_env] at its default [False]:
    [dict(os.environ, **env)], the variables of the process itself
    overlaid by the [env] argument of [ctx.run]. *)
Definition generate_env (environ env : gmap string string) : gmap string string :=
  env ∪ environ.

(** The shell behind [ctx.run] as pyinvoke's runner builds it from the
    variables of its own process and the call that starts a subprocess
    ([spawn]): the subprocess is started with the generated environment. *)
Definition invoke_runner (environ : gmap string string)
    (spawn : gmap (list string) node → string → gmap string string →
             Z * string * gmap (list string) node)
  : gmap (list string) node → string → gmap string string →
    Z * string * gmap (list string) node :=
  fun f line env => spawn f line (generate_env environ env).

(** ** Primitive steps *)

Definition nl : string := String LF EmptyString.

Definition dir_exists (f : filesystem) (p : path) : bool :=
  match p with
  | [] => true
  | _ => is_dir f p
  end.

(** [os.makedirs] without [exist_ok]: [walked] exists, [todo] remains. *)
Fixpoint makedirs_from (f : filesystem) (walked : path) (todo : list string)
  : exn + filesystem :=
  match todo with
  | [] => inl (FileExistsError walked)
  | c :: rest =>
      let d := walked ++ [c] in
      match f !! d, rest with
      | None, [] => inr (<[d := Directory]> f)
      | None, _ => makedirs_from (<[d := Directory]> f) d rest
      | Some Directory, [] => inl (FileExistsError d)
      | Some Directory, _ => makedirs_from f d rest
      | Some (RegFile _), [] => inl (FileExistsError d)
      | Some (RegFile _), _ => inl (NotADirectoryError d)
      end
  end.

(** ** [shutil.move] into a directory, as the standard library has it

    The model has no links, so two paths name the same file exactly
    when they are equal. *)

(** What is left of [p] below [d], when [p] is [d] or lies below it. *)
Fixpoint strip_prefix (d p : path) : option path :=
  match d, p with
  | [], _ => Some p
  | a :: d', b :: p' => if String.eqb a b then strip_prefix d' p' else None
  | _ :: _, [] => None
  end.

(** Renaming [src] to [dst] sends [src/r] to [dst/r]; read on all
    paths it exchanges the two trees, which makes it a bijection. *)
Definition rebase (src dst p : path) : path :=
  match strip_prefix src p with
  | Some r => dst ++ r
  | None =>
      match strip_prefix dst p with
      | Some r => src ++ r
      | None => p
      end
  end.

(** [os.rename(src, dst)] onto a free name: the tree at [src] is at
    [dst] afterwards, and nothing is left at [src]. *)
Definition os_rename (f : gmap (list string) node) (src dst : path)
  : gmap (list string) node :=
  kmap (rebase src dst) (filter (fun kv => strip_prefix dst kv.1 = None) f).

(** [os.path.basename] *)
Definition basename (p : path) : string := default "" (last p).

(** [shutil.move(src, dst)] for a [dst] that is an existing directory:
    - [src] and [dst] are the same file: [os.rename(src, dst)], which
      leaves the tree as it is;
    - otherwise the target is [dst/basename(src)]; [shutil.Error] when
      that exists, [FileNotFoundError] when [src] does not, and
      [shutil.Error] when [src] is a directory that holds [dst];
    - otherwise [src] is renamed to the target. *)
Definition move_into_dir (f : gmap (list string) node) (src dst : path)
  : exn + gmap (list string) node :=
  if bool_decide (src = dst) then inr f
  else
    let real_dst := dst ++ [basename src] in
    match f !! real_dst with
    | Some _ => inl (ForeignError "shutil.Error")
    | None =>
        match f !! src with
        | None => inl (FileNotFoundError src)
        | Some (RegFile _) => inr (os_rename f src real_dst)
        | Some Directory =>
            match strip_prefix src dst with
            | Some _ => inl (ForeignError "shutil.Error")
            | None => inr (os_rename f src real_dst)
            end
        end
    end.

(** No entry of the file system lies below [d]. *)
Definition dir_is_empty (f : gmap (list string) node) (d : path) : bool :=
  forallb (fun p => match strip_prefix d p with
                    | Some (_ :: _) => false
                    | _ => true
                    end) (map fst (map_to_list f)).

Section Tasks.
Context (cfg : config) (m : machine).

(** [ctx.run(cmd, env=env)] with pyinvoke's default [warn=False]: a
    non-zero exit raises [UnexpectedExit], which carries the exit code
    up to the program's own exit code. *)
Definition run (cmd : string) (env : gmap string string) : M string := fun s =>
  let line := prefix_commands s cmd in
  let '(code, out, f') := shell m (fs s) line env in
  Outcome (if code =? 0 then inr out else inl (UnexpectedExit code))
          (State f' (command_prefixes s) (command_cwds s))
          [ERun cmd line env code].

Definition path_is_file (p : path) : M bool := fun s =>
  Outcome (inr (is_file (fs s) p)) s [EIsFile p (is_file (fs s) p)].

(** [open(p).read()] *)
Definition read_text (p : path) : M string := fun s =>
  match fs s !! p with
  | Some (RegFile c) => Outcome (inr c) s [ERead p]
  | Some Directory => Outcome (inl (IsADirectoryError p)) s []
  | None => Outcome (inl (FileNotFoundError p)) s []
  end.

(** [with open(p, 'r') as f: f.readline()] *)
Definition open_readline (p : path) : M (list N) := fun s =>
  match fs s !! p with
  | Some (RegFile c) => Outcome (text_readline m c) s [ERead p]
  | Some Directory => Outcome (inl (IsADirectoryError p)) s []
  | None => Outcome (inl (FileNotFoundError p)) s []
  end.

(** [open(p, 'a')]: the file is created when it is missing. *)
Definition open_append (p : path) : M unit := fun s =>
  match fs s !! p with
  | Some (RegFile _) => Outcome (inr tt) s []
  | Some Directory => Outcome (inl (IsADirectoryError p)) s []
  | None =>
      if dir_exists (fs s) (parent p)
      then Outcome (inr tt)
             (State (<[p := RegFile ""]> (fs s)) (command_prefixes s) (command_cwds s)) []
      else Outcome (inl (FileNotFoundError p)) s []
  end.

(** [open(p, 'wb')]: created or truncated. *)
Definition open_write (p : path) : M unit := fun s =>
  match fs s !! p with
  | Some Directory => Outcome (inl (IsADirectoryError p)) s []
  | Some (RegFile _) =>
      Outcome (inr tt)
        (State (<[p := RegFile ""]> (fs s)) (command_prefixes s) (command_cwds s))
        [ETruncate p]
  | None =>
      if dir_exists (fs s) (parent p)
      then Outcome (inr tt)
             (State (<[p := RegFile ""]> (fs s)) (command_prefixes s) (command_cwds s))
             [ETruncate p]
      else Outcome (inl (FileNotFoundError p)) s []
  end.

(** [f.write(data)] on a file opened for writing at its end *)
Definition write (p : path) (data : string) : M unit := fun s =>
  match fs s !! p with
  | Some (RegFile c) =>
      Outcome (inr tt)
        (State (<[p := RegFile (c +:+ data)]> (fs s)) (command_prefixes s) (command_cwds s))
        [EAppend p data]
  | _ => Outcome (inl (FileNotFoundError p)) s []
  end.

Definition os_makedirs (p : path) : M unit := fun s =>
  match makedirs_from (fs s) [] p with
  | inl e => Outcome (inl e) s []
  | inr f' => Outcome (inr tt) (State f' (command_prefixes s) (command_cwds s)) [EMakedirs p]
  end.

Definition listdir (p : path) : M (list pystr) := fun s =>
  match os_listdir m (fs s) p with
  | inl e => Outcome (inl e) s []
  | inr names => Outcome (inr names) s [EListdir p]
  end.

(** [shutil.move(src, dst)] *)
Definition shutil_move (src dst : path) : M unit := fun s =>
  match os_move m (fs s) src dst with
  | inl e => Outcome (inl e) s [EMove src dst]
  | inr f' => Outcome (inr tt) (State f' (command_prefixes s) (command_cwds s)) [EMove src dst]
  end.

(** [requests.get(url)] *)
Definition http_get (url : string) : M response := fun s =>
  match requests_get m url with
  | inl e => Outcome (inl e) s []
  | inr r => Outcome (inr r) s [EGet url (status_code r)]
  end.

(** ** Module constants *)

Definition NVM_SH_PATH : path := NVM_DIR cfg ++ ["nvm.sh"].
Definition RVM_PATH : path := ["usr"; "local"; "rvm"; "scripts"; "rvm"].
Definition PACKAGE_JSON_PATH : path := CLONE_DIR_PATH cfg ++ ["package.json"].
Definition NVMRC_PATH : path := CLONE_DIR_PATH cfg ++ [".nvmrc"].
Definition RUBY_VERSION_PATH : path := CLONE_DIR_PATH cfg ++ [".ruby-version"].
Definition GEMFILE_PATH : path := CLONE_DIR_PATH cfg ++ ["Gemfile"].
Definition JEKYLL_CONF_YML_PATH : path := CLONE_DIR_PATH cfg ++ ["_config.yml"].

Definition source_nvm : cm := Prefix ("source " +:+ render NVM_SH_PATH).
Definition source_rvm : cm := Prefix ("source " +:+ render RVM_PATH).
Definition cd_clone : cm := Cd (render (CLONE_DIR_PATH cfg)).

(** ** The tasks *)

Definition has_federalist_script : M bool :=
  present <- path_is_file PACKAGE_JSON_PATH ;;
  if (present : bool) then
    text <- read_text PACKAGE_JSON_PATH ;;
    package_json <- lift (json_load m text) ;;
    scripts <- lift (py_get package_json "scripts" (JObject [])) ;;
    lift (py_in "federalist" scripts)
  else ret false.

Definition setup_node : M unit :=
  with_cm cd_clone (
    with_cm source_nvm (
      pinned <- path_is_file NVMRC_PATH ;;
      (if (pinned : bool) then
         log_info "Using node version specified in .nvmrc" ;;
         run "nvm install" ∅ ;;
         ret tt
       else ret tt) ;;
      node_ver_res <- run "node --version" ∅ ;;
      log_info ("Node version: " +:+ node_ver_res) ;;
      npm_ver_res <- run "npm --version" ∅ ;;
      log_info ("NPM version: " +:+ npm_ver_res) ;;
      has_manifest <- path_is_file PACKAGE_JSON_PATH ;;
      if (has_manifest : bool) then
        with_cm (Prefix "nvm use") (
          log_info "Installing production dependencies in package.json" ;;
          run "npm install --production" ∅ ;;
          ret tt)
      else ret tt)).

Definition node_context (more_contexts : list cm) : M (list cm) :=
  let contexts := [source_nvm] in
  pinned <- path_is_file NVMRC_PATH ;;
  let contexts := if (pinned : bool) then contexts ++ [Prefix "nvm use"] else contexts in
  let contexts := contexts ++ more_contexts in
  enter_contexts [] contexts.

Definition build_env (branch owner repository site_prefix base_url : string)
  : gmap string string :=
  list_to_map [("BRANCH", branch);
               ("OWNER", owner);
               ("REPOSITORY", repository);
               ("SITE_PREFIX", site_prefix);
               ("BASEURL", base_url)].

Definition run_federalist_script : M unit :=
  present <- path_is_file PACKAGE_JSON_PATH ;;
  declared <- (if (present : bool) then has_federalist_script else ret false) ;;
  if (declared : bool) then
    stack <- node_context [cd_clone] ;;
    with_stack stack (
      log_info "Running federalist build script in package.json" ;;
      run "npm run federalist" ∅ ;;
      ret tt)
  else ret tt.

Definition setup_ruby : M unit :=
  with_cm source_rvm (
    pinned <- path_is_file RUBY_VERSION_PATH ;;
    (if (pinned : bool) then
       line <- open_readline RUBY_VERSION_PATH ;;
       let ruby_version := strip line in
       if truthy_text ruby_version then
         log_info "Using ruby version in .ruby-version" ;;
         run "rvm install {ruby_version}" ∅ ;;
         ret tt
       else ret tt
     else ret tt) ;;
    ruby_ver_res <- run "ruby -v" ∅ ;;
    log_info ("Ruby version: " +:+ ruby_ver_res)).

Definition build_jekyll (branch owner repository site_prefix config base_url : string)
  : M unit :=
  open_append JEKYLL_CONF_YML_PATH ;;
  for_each (write JEKYLL_CONF_YML_PATH)
    [nl +:+ "baseurl: " +:+ base_url +:+ nl;
     "branch: " +:+ branch +:+ nl;
     config] ;;
  stack <- node_context [source_rvm; cd_clone] ;;
  with_stack stack (
    has_gemfile <- path_is_file GEMFILE_PATH ;;
    jekyll_cmd <-
      (if (has_gemfile : bool) then
         log_info "Setting up bundler" ;;
         run "gem install bundler" ∅ ;;
         log_info "Installing dependencies in Gemfile" ;;
         run "bundle install" ∅ ;;
         ret ("bundle exec " +:+ "jekyll")
       else
         log_info "Installing Jekyll" ;;
         run "gem install jekyll" ∅ ;;
         ret "jekyll") ;;
    jekyll_vers_res <- run (jekyll_cmd +:+ " -v") ∅ ;;
    log_info ("Building using Jekyll version: " +:+ jekyll_vers_res) ;;
    run (jekyll_cmd +:+ " build --destination " +:+ chars (SITE_BUILD_DIR cfg))
        (build_env branch owner repository site_prefix base_url) ;;
    ret tt).

Definition hugo_url (version : string) : string :=
  "https://github.com/gohugoio/hugo/releases/download/" +:+
  "v" +:+ version +:+ "/hugo_" +:+ version +:+ "_Linux-64bit.deb".

Definition hugo_deb : path := WORKING_DIR cfg ++ ["hugo.deb"].

Definition install_hugo (version : string) : M unit :=
  log_info ("Downloading and installing hugo version " +:+ version) ;;
  let dl_url := hugo_url version in
  response <- http_get dl_url ;;
  open_write hugo_deb ;;
  for_each (write hugo_deb) (iter_slices 128 (content response)) ;;
  run ("dpkg -i " +:+ render hugo_deb) ∅ ;;
  ret tt.

Definition build_hugo (branch owner repository site_prefix base_url hugo_version : string)
  : M unit :=
  install_hugo hugo_version ;;
  hugo_vers_res <- run "hugo version" ∅ ;;
  log_info ("hugo version: " +:+ hugo_vers_res) ;;
  log_info "Building site with hugo" ;;
  stack <- node_context [cd_clone] ;;
  with_stack stack (
    let hugo_args := "--source . --destination " +:+ chars (SITE_BUILD_DIR cfg) in
    let hugo_args :=
      if truthy base_url then hugo_args +:+ " --baseUrl " +:+ base_url else hugo_args in
    run ("hugo " +:+ hugo_args)
        (build_env branch owner repository site_prefix base_url) ;;
    ret tt).

Definition build_static : M unit :=
  log_info ("Moving files to " +:+ chars (SITE_BUILD_DIR cfg)) ;;
  os_makedirs (SITE_BUILD_DIR_PATH cfg) ;;
  files <- listdir (CLONE_DIR_PATH cfg) ;;
  for_each (fun file =>
    if negb (py_is file (SITE_BUILD_DIR cfg))
    then shutil_move (CLONE_DIR_PATH cfg ++ [chars file]) (SITE_BUILD_DIR_PATH cfg)
    else ret tt) files.

(** Modelled from the spec: the [clean] task of [tasks/common.py], which
    is not among the sources; the spec has it "delete the clone's
    version-control metadata directory". *)
Definition clean (which : path) : M unit := fun s =>
  Outcome (inr tt)
    (State (filter (fun kv => ¬ (which `prefix_of` kv.1)) (fs s))
           (command_prefixes s) (command_cwds s))
    [ERmtree which].

(** ** pyinvoke's executor: tasks, their [pre] lists and the run order *)

Inductive task :=
| SetupNode
| RunFederalistScript
| SetupRuby
| BuildJekyll (branch owner repository site_prefix config base_url : string)
| InstallHugo (version : string)
| BuildHugo (branch owner repository site_prefix base_url hugo_version : string)
| Clean (which : path)
| BuildStatic.

#[export] Instance task_eq_dec : EqDecision task.
Proof. solve_decision. Defined.

(** [@task(pre=[...])] *)
Definition pre (t : task) : list task :=
  match t with
  | RunFederalistScript => [SetupNode]
  | BuildJekyll _ _ _ _ _ _ => [RunFederalistScript; SetupRuby]
  | BuildHugo _ _ _ _ _ _ => [RunFederalistScript]
  | BuildStatic => [RunFederalistScript; Clean (CLONE_DIR_PATH cfg ++ [".git"])]
  | _ => []
  end.

Definition body (t : task) : M unit :=
  match t with
  | SetupNode => setup_node
  | RunFederalistScript => run_federalist_script
  | SetupRuby => setup_ruby
  | BuildJekyll branch owner repository site_prefix config base_url =>
      build_jekyll branch owner repository site_prefix config base_url
  | InstallHugo version => install_hugo version
  | BuildHugo branch owner repository site_prefix base_url hugo_version =>
      build_hugo branch owner repository site_prefix base_url hugo_version
  | Clean which => clean which
  | BuildStatic => build_static
  end.

(** [Executor.expand_calls]: a task's prerequisites, expanded in turn,
    come before it.  The [pre] graph above is three levels deep. *)
Fixpoint expand_calls (depth : nat) (t : task) : list task :=
  match depth with
  | O => [t]
  | S d => flat_map (expand_calls d) (pre t) ++ [t]
  end.

(** [Executor.dedupe]: the first occurrence of a call is kept. *)
Fixpoint dedupe (seen calls : list task) : list task :=
  match calls with
  | [] => []
  | t :: rest =>
      if bool_decide (t ∈ seen) then dedupe seen rest
      else t :: dedupe (seen ++ [t]) rest
  end.

(** [invoke <task>] *)
Definition execute (t : task) : M unit :=
  for_each body (dedupe [] (expand_calls 3 t)).

End Tasks.

(** ** A concrete build machine

    The clone lives in [/work/site_repo], the output directory is
    [_site] inside it, and [NVM_DIR] is [/usr/local/nvm].  [quiet]
    is a machine whose commands all succeed and change nothing and
    whose JSON decoder knows the empty object only: like every JSON
    decoder it rejects the text of a single opening brace.  Its locale
    is ASCII.  The other
    machines differ from [quiet] in one collaborator. *)

Definition cfg0 : config :=
  Config ["usr"; "local"; "nvm"]
         ["work"; "site_repo"]
         ["work"]
         (PyStr 0 "_site")
         ["work"; "site_repo"; "_site"].

Definition quiet : machine :=
  Machine (fun f _ _ => (0, "1.0", f))
          (fun _ _ => inr [])
          (fun f _ _ => inr f)
          (fun _ => inr (Response 200 "deb"))
          (fun text => if String.eqb text "{}" then inr (JObject [])
                       else inl JSONDecodeError)
          ascii_readline.

(** [os.listdir] builds a new [str] object for every entry: none of
    them is the object the constant [SITE_BUILD_DIR] is bound to. *)
Definition clone_listing : list pystr :=
  [PyStr 1 "a.txt"; PyStr 2 "b"; PyStr 3 "_site"].


(** A clone with a file and a directory that holds a file, and a
    machine whose [shutil.move] is the standard library's and whose
    [os.listdir] lists the clone once [_site] is there. *)
Definition fs_static : gmap (list string) node :=
  list_to_map
    [(["work"], Directory);
     (["work"; "site_repo"], Directory);
     (["work"; "site_repo"; "a.txt"], RegFile "hello");
     (["work"; "site_repo"; "b"], Directory);
     (["work"; "site_repo"; "b"; "c.txt"], RegFile "nested")].

Definition posix_machine : machine :=
  Machine (shell quiet) (fun _ _ => inr clone_listing) move_into_dir
          (requests_get quiet) (json_load quiet) (text_readline quiet).

(** The release host answers 404 with a short body. *)
Definition not_found_machine : machine :=
  Machine (shell quiet) (os_listdir quiet) (os_move quiet)
          (fun _ => inr (Response 404 "Not Found")) (json_load quiet)
          (text_readline quiet).

(** A clone with a Ruby pin and a manifest that is cut off after its
    first brace, which no JSON decoder accepts. *)
Definition fs0 : gmap (list string) node :=
  list_to_map
    [(["work"], Directory);
     (["work"; "site_repo"], Directory);
     (["work"; "site_repo"; ".ruby-version"], RegFile ("2.4.1" +:+ nl));
     (["work"; "site_repo"; "_config.yml"], RegFile ("title: x" +:+ nl));
     (["work"; "site_repo"; "package.json"], RegFile "{")].

Definition s0 : state := State fs0 [] [].

Definition is_move (e : event) : bool :=
  match e with
  | EMove _ _ => true
  | _ => false
  end.

(** The bare commands handed to [ctx.run], in order. *)
Definition commands (l : list event) : list string :=
  flat_map (fun e => match e with ERun cmd _ _ _ => [cmd] | _ => [] end) l.

(** [open(p, 'wb')] and [open(p, 'a')] succeed on a regular file, and
    on a missing one whose directory exists. *)
Definition writable (f : gmap (list string) node) (p : path) : bool :=
  match f !! p with
  | Some (RegFile _) => true
  | Some Directory => false
  | None => dir_exists f (parent p)
  end.

(** What an open in append mode finds in the file. *)
Definition prior_contents (f : gmap (list string) node) (p : path) : option string :=
  match f !! p with
  | Some (RegFile c) => Some c
  | Some Directory => None
  | None => if dir_exists f (parent p) then Some "" else None
  end.

(** The prefixes and the directories a list of context managers pushes. *)
Definition prefixes_of (l : list cm) : list string :=
  flat_map (fun c => match c with Prefix p => [p] | Cd _ => [] end) l.

Definition dirs_of (l : list cm) : list string :=
  flat_map (fun c => match c with Prefix _ => [] | Cd d => [d] end) l.

(** Every step a computation takes, from any state, satisfies [P]. *)
Definition emits {A} (P : event → Prop) (c : M A) : Prop :=
  ∀ s, Forall P (evs (c s)).

(** The names [build_env] binds. *)
Definition generated_names : list string :=
  ["BRANCH"; "OWNER"; "REPOSITORY"; "SITE_PREFIX"; "BASEURL"].

(** The build command of [build_jekyll], on its own and through
    bundler, and the commands that come before it. *)
Definition jekyll_build_commands (cfg : config) : list string :=
  ["jekyll build --destination " +:+ chars (SITE_BUILD_DIR cfg);
   "bundle exec jekyll build --destination " +:+ chars (SITE_BUILD_DIR cfg)].

Definition jekyll_other_commands : list string :=
  ["gem install bundler"; "bundle install"; "gem install jekyll";
   "jekyll -v"; "bundle exec jekyll -v"].

(** What [build_jekyll] hands to a subprocess as [env]: the five
    generated variables to a build command, and nothing to any other
    command. *)
Definition jekyll_env_ok (cfg : config)
    (branch owner repository site_prefix base_url : string) (e : event) : Prop :=
  match e with
  | ERun cmd _ env _ =>
      (cmd ∈ jekyll_build_commands cfg ∧
       env = build_env branch owner repository site_prefix base_url) ∨
      (cmd ∈ jekyll_other_commands ∧ env = ∅)
  | _ => True
  end.

(** A build host whose process has [HOME] set; the generator it starts
    exits with code 3 when it finds [HOME] among its variables. *)
Definition home_environ : gmap string string := {["HOME" := "/root"]}.

Definition home_machine : machine :=
  Machine (invoke_runner home_environ
             (fun f line env =>
                if is_substring "jekyll build" line && bool_decide (is_Some (env !! "HOME"))
                then (3, "", f) else (0, "1.0", f)))
          (os_listdir quiet) (os_move quiet) (requests_get quiet) (json_load quiet)
          (text_readline quiet).

(** A step is fine unless it is a subprocess that exited non-zero. *)
Definition run_ok (e : event) : Prop :=
  match e with
  | ERun _ _ _ code => code = 0
  | _ => True
  end.

(** The error policy on one outcome: a subprocess that exits non-zero
    is the last step taken, and the outcome is pyinvoke's
    [UnexpectedExit] with that exit code. *)
Definition aborts_on_failure {A} (o : outcome A) : Prop :=
  ∀ pre cmd line env code post,
    evs o = pre ++ ERun cmd line env code :: post →
    code ≠ 0 →
    post = [] ∧ res o = inl (UnexpectedExit code).

(** The invariant behind it: either no subprocess failed, or exactly
    the last step is a failed subprocess and its exit code is raised. *)
Definition disciplined_outcome {A} (o : outcome A) : Prop :=
  Forall run_ok (evs o) ∨
  ∃ pre cmd line env code,
    evs o = pre ++ [ERun cmd line env code] ∧
    Forall run_ok pre ∧
    code ≠ 0 ∧
    res o = inl (UnexpectedExit code).

Definition disciplined {A} (c : M A) : Prop := ∀ s, disciplined_outcome (c s).

(** A finalizer that takes no step and cannot fail. *)
Definition silent (fin : M unit) : Prop :=
  ∀ s, evs (fin s) = [] ∧ res (fin s) = inr tt.

(** [bundle install] fails with exit code 7; everything else is [quiet]. *)
Definition bundle_fails_machine : machine :=
  Machine (fun f line _ =>
             if is_substring "bundle install" line then (7, "", f) else (0, "1.0", f))
          (os_listdir quiet) (os_move quiet) (requests_get quiet) (json_load quiet)
          (text_readline quiet).

(** [fs0] without the manifest and with a [Gemfile]. *)
Definition fs_ruby : gmap (list string) node :=
  <[["work"; "site_repo"; "Gemfile"] := RegFile "gem"]>
    (delete ["work"; "site_repo"; "package.json"] fs0).

(** A computation leaves the file at [p] as it found it, however it ends. *)
Definition keeps {A} (p : path) (c : M A) : Prop :=
  ∀ s, fs (st (c s)) !! p = fs s !! p.

(** A step that is not a write of the module's own to a file. *)
Definition not_a_write (e : event) : Prop :=
  match e with
  | EAppend _ _ | ETruncate _ => False
  | _ => True
  end.

(** The shell line of the production install as [setup_node] issues
    it: inside the clone, after sourcing nvm and [nvm use]. *)
Definition npm_install_line (cfg : config) : string :=
  String.concat " && "
    ["cd " +:+ escape_spaces (render (CLONE_DIR_PATH cfg));
     "source " +:+ render (NVM_SH_PATH cfg);
     "nvm use";
     "npm install --production"].

(** A computation leaves the context's prefix and directory stacks as
    it found them, however it ends. *)
Definition balanced {A} (c : M A) : Prop :=
  ∀ s, command_prefixes (st (c s)) = command_prefixes s ∧
       command_cwds (st (c s)) = command_cwds s.

(** What [build_hugo] may hand to a subprocess: no variables for the
    package install and the version check, and the five generated
    variables for the one [hugo] build command, whose [--baseUrl] flag
    is there exactly when [base_url] is not empty. *)
Definition hugo_run_ok (cfg : config)
    (branch owner repository site_prefix base_url : string) (e : event) : Prop :=
  match e with
  | ERun cmd _ env _ =>
      (env = ∅ ∧ (cmd = "dpkg -i " +:+ render (hugo_deb cfg) ∨ cmd = "hugo version")) ∨
      (env = build_env branch owner repository site_prefix base_url ∧
       cmd = "hugo --source . --destination " +:+ chars (SITE_BUILD_DIR cfg) +:+
             (if truthy base_url then " --baseUrl " +:+ base_url else ""))
  | _ => True
  end.

(** The release host cannot be reached: [requests.get] raises. *)
Definition offline_machine : machine :=
  Machine (shell quiet) (os_listdir quiet) (os_move quiet)
          (fun _ => inl (ForeignError "ConnectionError")) (json_load quiet)
          (text_readline quiet).

(** [fs0] with a [.ruby-version] that holds white space only. *)
Definition fs_blank_pin : gmap (list string) node :=
  <[["work"; "site_repo"; ".ruby-version"] := RegFile ("  " +:+ nl)]> fs0.

(** [fs0] with a [.ruby-version] that starts with the byte 0xE9, which
    is not ASCII. *)
Definition fs_bad_pin : gmap (list string) node :=
  <[["work"; "site_repo"; ".ruby-version"] :=
      RegFile (String (ascii_of_nat 233) ("2.4.1" +:+ nl))]> fs0.

(** A manifest that declares the [federalist] script, and a machine
    whose decoder reads it. *)
Definition dq : string := String (ascii_of_nat 34) EmptyString.

Definition manifest_text : string :=
  "{" +:+ dq +:+ "scripts" +:+ dq +:+ ": {" +:+
  dq +:+ "federalist" +:+ dq +:+ ": " +:+ dq +:+ "make" +:+ dq +:+ "}}".

Definition manifest_json : json :=
  JObject [("scripts", JObject [("federalist", JString "make")])].

Definition scripted_machine : machine :=
  Machine (shell quiet) (os_listdir quiet) (os_move quiet) (requests_get quiet)
          (fun text => if String.eqb text manifest_text then inr manifest_json
                       else json_load quiet text)
          (text_readline quiet).

Definition fs_scripted : gmap (list string) node :=
  <[["work"; "site_repo"; "package.json"] := RegFile manifest_text]> fs0.

(** [fs0] without a manifest. *)
Definition fs_plain : gmap (list string) node :=
  delete ["work"; "site_repo"; "package.json"] fs0.


(** The commands of [setup_node] that do not depend on a manifest. *)
Definition version_commands : list string :=
  ["nvm install"; "node --version"; "npm --version"].

(** The shell line of the federalist script: inside the clone, after
    sourcing nvm, with [nvm use] when [pinned]. *)
Definition federalist_line (cfg : config) (pinned : bool) : string :=
  String.concat " && "
    (["cd " +:+ escape_spaces (render (CLONE_DIR_PATH cfg)); "source " +:+ render (NVM_SH_PATH cfg)] ++
     (if pinned then ["nvm use"] else []) ++
     ["npm run federalist"]).

Definition is_run (e : event) : bool :=
  match e with
  | ERun _ _ _ _ => true
  | _ => false
  end.

(** The commands of [build_jekyll] with and without a [Gemfile]. *)
Definition bundler_commands (cfg : config) : list string :=
  ["gem install bundler";
   "bundle install";
   "bundle exec jekyll -v";
   "bundle exec jekyll build --destination " +:+ chars (SITE_BUILD_DIR cfg)].

Definition direct_commands (cfg : config) : list string :=
  ["gem install jekyll";
   "jekyll -v";
   "jekyll build --destination " +:+ chars (SITE_BUILD_DIR cfg)].

#[export] Instance event_eq_dec : EqDecision event.
Proof. solve_decision. Defined.

(** The shell line of a command of [build_jekyll]: inside the clone,
    after sourcing nvm, [nvm use] when [pinned], and sourcing rvm. *)
Definition jekyll_line (cfg : config) (pinned : bool) (cmd : string) : string :=
  String.concat " && "
    (["cd " +:+ escape_spaces (render (CLONE_DIR_PATH cfg)); "source " +:+ render (NVM_SH_PATH cfg)] ++
     (if pinned then ["nvm use"] else []) ++
     ["source " +:+ render RVM_PATH; cmd]).

(** The shell line of the build command of [build_hugo]. *)
Definition hugo_line (cfg : config) (pinned : bool) (cmd : string) : string :=
  String.concat " && "
    (["cd " +:+ escape_spaces (render (CLONE_DIR_PATH cfg)); "source " +:+ render (NVM_SH_PATH cfg)] ++
     (if pinned then ["nvm use"] else []) ++
     [cmd]).

Definition jekyll_line_ok (cfg : config) (pinned : bool) (e : event) : Prop :=
  match e with
  | ERun cmd line _ _ => line = jekyll_line cfg pinned cmd
  | _ => True
  end.

(** The lines of [build_hugo]: the build command runs in the clone
    behind nvm, with [nvm use] when [pinned]; any other command is
    handed over bare. *)
Definition hugo_line_ok (cfg : config) (pinned : bool) (e : event) : Prop :=
  match e with
  | ERun cmd line _ _ =>
      if String.prefix "hugo --source" cmd
      then line = hugo_line cfg pinned cmd
      else line = cmd
  | _ => True
  end.

(** The lines of [setup_node]: every command runs in the clone behind
    nvm, given no variables, and only the production install is
    wrapped in [nvm use]. *)
Definition setup_node_line_ok (cfg : config) (e : event) : Prop :=
  match e with
  | ERun cmd line env _ =>
      env = ∅ ∧
      line = String.concat " && "
               (["cd " +:+ escape_spaces (render (CLONE_DIR_PATH cfg));
                 "source " +:+ render (NVM_SH_PATH cfg)] ++
                (if String.eqb cmd "npm install --production" then ["nvm use"] else []) ++
                [cmd])
  | _ => True
  end.

(** A configuration whose clone directory has a space in its name. *)
Definition cfg_spaced : config :=
  Config ["usr"; "local"; "nvm"]
         ["work"; "my site"]
         ["work"]
         (PyStr 0 "_site")
         ["work"; "my site"; "_site"].

(** The tasks [invoke] runs before the body of [build_jekyll]. *)
Definition jekyll_prerequisites : list task :=
  [SetupNode; RunFederalistScript; SetupRuby].

(** * Theorems *)

(** ** The static-passthrough finalizer *)

Lemma makedirs_from_existing (f : gmap (list string) node) walked todo :
  is_Some (f !! (walked ++ todo)) →
  makedirs_from f walked todo = inl (FileExistsError (walked ++ todo)) ∨
  ∃ d, makedirs_from f walked todo = inl (NotADirectoryError d).
Proof.
  revert f walked. induction todo as [|c rest IH]; intros f walked Hsome.
  { left. simpl. by rewrite app_nil_r. }
  destruct rest as [|c' rest'].
  - simpl. destruct Hsome as [x Hx]. rewrite Hx. destruct x; by left.
  - assert (Hstep : walked ++ c :: c' :: rest' = (walked ++ [c]) ++ c' :: rest')
      by (by rewrite <- app_assoc).
    cbn [makedirs_from]. rewrite Hstep.
    destruct (f !! (walked ++ [c])) as [[content|]|] eqn:Hd.
    + right. eauto.
    + apply IH. by rewrite <- Hstep.
    + apply IH. rewrite lookup_insert_ne; [by rewrite <- Hstep|].
      intros Heq. apply (f_equal length) in Heq.
      rewrite !length_app in Heq. simpl in Heq. lia.
Qed.

(** C8: when the output directory already exists, [build_static] fails
    at [os.makedirs]: it raises there, the machine state (file system
    included) is the one it started from, and the only step taken is
    the log line, so no child of the clone directory was listed or
    moved. *)
Theorem build_static_output_exists (cfg : config) (m : machine) (s : state) :
  is_Some (fs s !! SITE_BUILD_DIR_PATH cfg) →
  let o := build_static cfg m s in
  (res o = inl (FileExistsError (SITE_BUILD_DIR_PATH cfg)) ∨
   ∃ d, res o = inl (NotADirectoryError d)) ∧
  st o = s ∧
  evs o = [ELog ("Moving files to " +:+ chars (SITE_BUILD_DIR cfg))] ∧
  filter (fun e => is_move e = true) (evs o) = [].
Proof.
  intros Hsome.
  pose proof (makedirs_from_existing (fs s) [] _ Hsome) as Hmk.
  unfold build_static, bind, log_info, emit, os_makedirs. simpl in *.
  destruct Hmk as [Hmk|[d Hmk]]; rewrite Hmk; simpl; eauto 10.
Qed.

Lemma build_static_output_exists_witness :
  let o := build_static cfg0 quiet
             (State (<[SITE_BUILD_DIR_PATH cfg0 := Directory]> fs0) [] []) in
  (res o = inl (FileExistsError (SITE_BUILD_DIR_PATH cfg0)) ∨
   ∃ d, res o = inl (NotADirectoryError d)) ∧
  st o = State (<[SITE_BUILD_DIR_PATH cfg0 := Directory]> fs0) [] [] ∧
  evs o = [ELog ("Moving files to " +:+ chars (SITE_BUILD_DIR cfg0))] ∧
  filter (fun e => is_move e = true) (evs o) = [].
Proof.
  apply (build_static_output_exists cfg0 quiet
           (State (<[SITE_BUILD_DIR_PATH cfg0 := Directory]> fs0) [] [])).
  exists Directory. vm_compute. reflexivity.
Defined.


(** ** The Ruby set-up *)

(** C3 (the code departs from the claim): with [2.4.1] pinned in
    [.ruby-version], [setup_ruby] runs the install command with the
    placeholder text still in it; no command names the pinned version. *)
Theorem setup_ruby_runs_unformatted_command :
  let o := setup_ruby cfg0 quiet s0 in
  fs0 !! RUBY_VERSION_PATH cfg0 = Some (RegFile ("2.4.1" +:+ nl)) ∧
  text_readline quiet ("2.4.1" +:+ nl) = inr (code_points ("2.4.1" +:+ nl)) ∧
  strip (code_points ("2.4.1" +:+ nl)) = code_points "2.4.1" ∧
  commands (evs o) = ["rvm install {ruby_version}"; "ruby -v"] ∧
  "rvm install 2.4.1" ∉ commands (evs o).
Proof.
  vm_compute. repeat split.
  intros H. repeat (apply elem_of_cons in H as [H|H]; [discriminate|]).
  by apply elem_of_nil in H.
Qed.

(** ** Helpers on strings and on sequencing *)

Lemma append_cons (c : ascii) (a b : string) : String c a +:+ b = String c (a +:+ b).
Proof. reflexivity. Qed.

Lemma append_nil_r (s : string) : s +:+ "" = s.
Proof. induction s as [|c s IH]; [done|]. by rewrite append_cons, IH. Qed.

Lemma append_assoc (a b c : string) : (a +:+ b) +:+ c = a +:+ b +:+ c.
Proof. induction a as [|x a IH]; [done|]. by rewrite !append_cons, IH. Qed.

Lemma concat_slices_aux (n room : nat) (cur s : string) :
  String.concat "" (slices_aux n room cur s) = cur +:+ s.
Proof.
  revert room cur. induction s as [|c s IH]; intros room cur.
  - rewrite append_nil_r. by destruct cur.
  - cbn [slices_aux]. destruct room as [|room'].
    + assert (Hcons : ∀ x l, String.concat "" (x :: l) = x +:+ String.concat "" l).
      { intros x [|y l]; [symmetry; apply append_nil_r|done]. }
      rewrite Hcons, IH. done.
    + rewrite IH, append_assoc. done.
Qed.

(** The slices of a body, written one after the other, are the body. *)
Lemma concat_iter_slices (n : nat) (s : string) :
  String.concat "" (iter_slices n s) = s.
Proof. unfold iter_slices. by rewrite concat_slices_aux. Qed.

Lemma concat_cons (x : string) (l : list string) :
  String.concat "" (x :: l) = x +:+ String.concat "" l.
Proof. destruct l; [symmetry; apply append_nil_r|done]. Qed.

Lemma bind_inr {A B} (c : M A) (k : A → M B) (s : state) a s1 e1 :
  c s = Outcome (inr a) s1 e1 →
  bind c k s = Outcome (res (k a s1)) (st (k a s1)) (e1 ++ evs (k a s1)).
Proof. intros H. unfold bind. by rewrite H. Qed.

Lemma run_unfold (m : machine) (cmd : string) (env : gmap string string) (s : state) :
  run m cmd env s =
    Outcome (if (shell m (fs s) (prefix_commands s cmd) env).1.1 =? 0
             then inr (shell m (fs s) (prefix_commands s cmd) env).1.2
             else inl (UnexpectedExit (shell m (fs s) (prefix_commands s cmd) env).1.1))
            (State (shell m (fs s) (prefix_commands s cmd) env).2
                   (command_prefixes s) (command_cwds s))
            [ERun cmd (prefix_commands s cmd) env
                  (shell m (fs s) (prefix_commands s cmd) env).1.1].
Proof. unfold run. by destruct (shell m _ _ _) as [[c out] f']. Qed.

Lemma prefix_commands_stacks (f : gmap (list string) node) (s : state) (cmd : string) :
  prefix_commands (State f (command_prefixes s) (command_cwds s)) cmd =
  prefix_commands s cmd.
Proof. reflexivity. Qed.

Lemma write_ok (p : path) (data : string) (s : state) c :
  fs s !! p = Some (RegFile c) →
  write p data s =
    Outcome (inr tt)
      (State (<[p := RegFile (c +:+ data)]> (fs s)) (command_prefixes s) (command_cwds s))
      [EAppend p data].
Proof. intros H. unfold write. by rewrite H. Qed.

(** Writing a list of pieces to an open file appends their
    concatenation and records one step per piece. *)
Lemma for_each_write (p : path) (pieces : list string) (s : state) c0 :
  fs s !! p = Some (RegFile c0) →
  for_each (write p) pieces s =
    Outcome (inr tt)
      (State (<[p := RegFile (c0 +:+ String.concat "" pieces)]> (fs s))
             (command_prefixes s) (command_cwds s))
      (map (EAppend p) pieces).
Proof.
  revert s c0. induction pieces as [|x rest IH]; intros s c0 Hp.
  - destruct s as [f cp cw]. cbn in *. rewrite append_nil_r. by rewrite insert_id.
  - cbn [for_each]. rewrite (bind_inr _ _ _ _ _ _ (write_ok p x s c0 Hp)).
    rewrite (IH _ (c0 +:+ x)) by (cbn; by rewrite lookup_insert_eq).
    rewrite concat_cons. cbn [res st evs fs command_prefixes command_cwds map app].
    by rewrite insert_insert_eq, append_assoc.
Qed.

(** ** The Hugo download *)

Lemma open_write_ok (p : path) (s : state) :
  writable (fs s) p = true →
  open_write p s =
    Outcome (inr tt)
      (State (<[p := RegFile ""]> (fs s)) (command_prefixes s) (command_cwds s))
      [ETruncate p].
Proof.
  unfold writable, open_write. intros H.
  destruct (fs s !! p) as [[c|]|]; [done|done|by rewrite H].
Qed.

(** C9, as the code has it: [install_hugo] never looks at the status of
    the response.  Whenever [requests.get] returns a response and
    [hugo.deb] can be opened for writing, the body is written to
    [hugo.deb] slice by slice and [dpkg -i] is run on it; the task
    fails there exactly when [dpkg] exits non-zero, with that code. *)
Theorem install_hugo_installs_any_response
    (cfg : config) (m : machine) (version : string) (s : state) (r : response) :
  requests_get m (hugo_url version) = inr r →
  writable (fs s) (hugo_deb cfg) = true →
  let o := install_hugo cfg m version s in
  let downloaded := <[hugo_deb cfg := RegFile (content r)]> (fs s) in
  let cmd := "dpkg -i " +:+ render (hugo_deb cfg) in
  let line := prefix_commands s cmd in
  let code := (shell m downloaded line ∅).1.1 in
  evs o =
    [ELog ("Downloading and installing hugo version " +:+ version);
     EGet (hugo_url version) (status_code r);
     ETruncate (hugo_deb cfg)] ++
    map (EAppend (hugo_deb cfg)) (iter_slices 128 (content r)) ++
    [ERun cmd line ∅ code] ∧
  res o = (if code =? 0 then inr tt else inl (UnexpectedExit code)) ∧
  fs (st o) = (shell m downloaded line ∅).2.
Proof.
  intros Hget Hw o downloaded cmd line code. subst o. unfold install_hugo.
  erewrite bind_inr by reflexivity. cbn [res st evs].
  erewrite bind_inr by (unfold http_get; rewrite Hget; reflexivity). cbn [res st evs].
  erewrite bind_inr by (by apply open_write_ok). cbn [res st evs].
  erewrite bind_inr by (apply for_each_write with (c0 := ""); cbn; by rewrite lookup_insert_eq).
  cbn [res st evs fs command_prefixes command_cwds].
  rewrite concat_iter_slices, insert_insert_eq. change ("" +:+ content r) with (content r).
  unfold bind. rewrite run_unfold. cbn [fs command_prefixes command_cwds].
  rewrite prefix_commands_stacks. fold cmd downloaded line code.
  destruct (code =? 0); cbn [res st evs fs]; rewrite ?app_nil_r; done.
Qed.

Lemma install_hugo_installs_any_response_witness :
  let o := install_hugo cfg0 quiet "0.23" s0 in
  let downloaded := <[hugo_deb cfg0 := RegFile "deb"]> fs0 in
  let cmd := "dpkg -i " +:+ render (hugo_deb cfg0) in
  let line := prefix_commands s0 cmd in
  let code := (shell quiet downloaded line ∅).1.1 in
  evs o =
    [ELog ("Downloading and installing hugo version " +:+ "0.23");
     EGet (hugo_url "0.23") 200;
     ETruncate (hugo_deb cfg0)] ++
    map (EAppend (hugo_deb cfg0)) (iter_slices 128 "deb") ++
    [ERun cmd line ∅ code] ∧
  res o = (if code =? 0 then inr tt else inl (UnexpectedExit code)) ∧
  fs (st o) = (shell quiet downloaded line ∅).2.
Proof.
  apply (install_hugo_installs_any_response cfg0 quiet "0.23" s0 (Response 200 "deb"));
    reflexivity.
Defined.

(** C9 as stated fails: the release host answers 404, and
    [install_hugo] still writes the error page to [hugo.deb], runs
    [dpkg -i] on it and returns normally. *)
Lemma install_hugo_proceeds_after_404 :
  let o := install_hugo cfg0 not_found_machine "0.23" s0 in
  requests_get not_found_machine (hugo_url "0.23") = inr (Response 404 "Not Found") ∧
  res o = inr tt ∧
  commands (evs o) = ["dpkg -i /work/hugo.deb"] ∧
  fs (st o) !! hugo_deb cfg0 = Some (RegFile "Not Found").
Proof. vm_compute. repeat split. Qed.

(** ** The manifest check *)

Lemma existsb_key (k : string) (members : list (string * json)) :
  existsb (fun kv => String.eqb k (fst kv)) members = bool_decide (k ∈ members.*1).
Proof.
  induction members as [|[k' v] rest IH]; [done|].
  cbn [existsb fmap list_fmap fst]. rewrite IH.
  destruct (String.eqb_spec k k') as [->|Hne].
  - cbn. symmetry. apply bool_decide_eq_true. constructor.
  - cbn. apply bool_decide_ext. rewrite elem_of_cons.
    split; [by right|]. intros [Heq|Hin]; [congruence|done].
Qed.

(** C2, as the code has it: [has_federalist_script] leaves the machine
    state alone and
    - returns [False] when the manifest is not a regular file;
    - raises what [json.load] raises when the manifest does not decode;
    - raises [AttributeError] when it decodes to something that is not
      an object;
    - returns [False] when the object has no [scripts] member;
    - returns whether [federalist] is a key of [scripts] when that
      member is an object, and otherwise what Python's [in] gives on
      the member. *)
Theorem has_federalist_script_cases (cfg : config) (m : machine) (s : state) :
  let o := has_federalist_script cfg m s in
  st o = s ∧
  match fs s !! PACKAGE_JSON_PATH cfg with
  | Some (RegFile text) =>
      match json_load m text with
      | inl e => res o = inl e
      | inr (JObject members) =>
          match dict_lookup "scripts" members with
          | None => res o = inr false
          | Some (JObject scripts) =>
              res o = inr (bool_decide ("federalist" ∈ scripts.*1))
          | Some other => res o = py_in "federalist" other
          end
      | inr _ => res o = inl AttributeError
      end
  | _ => res o = inr false
  end.
Proof.
  unfold has_federalist_script, bind, path_is_file, read_text, is_file.
  destruct (fs s !! PACKAGE_JSON_PATH cfg) as [[text|]|] eqn:Hp;
    cbn [res st evs]; rewrite ?Hp; cbn [res st evs]; [|done|done].
  destruct (json_load m text) as [e|doc]; cbn [lift raise ret res st evs]; [done|].
  destruct doc as [| | | | |members]; cbn [py_get lift raise ret res st evs]; try done.
  destruct (dict_lookup "scripts" members) as [scripts|];
    cbn [default from_option id py_in lift raise ret res st evs]; [|done].
  destruct scripts as [| | | | |keys]; cbn [py_in lift raise ret res st evs]; try done.
  by rewrite existsb_key.
Qed.

(** C2 as stated fails: the manifest is there but is not JSON, and
    [has_federalist_script] raises the decoder's error instead of
    returning [False]. *)
Lemma has_federalist_script_raises_on_bad_manifest :
  fs0 !! PACKAGE_JSON_PATH cfg0 = Some (RegFile "{") ∧
  json_load quiet "{" = inl JSONDecodeError ∧
  res (has_federalist_script cfg0 quiet s0) = inl JSONDecodeError.
Proof. vm_compute. repeat split. Qed.

(** ** The composed shell context *)

Lemma enter_contexts_outcome (contexts stack : list cm) (s : state) :
  enter_contexts stack contexts s =
    Outcome (inr (stack ++ contexts))
      (State (fs s)
             (command_prefixes s ++ prefixes_of contexts)
             (command_cwds s ++ dirs_of contexts))
      [].
Proof.
  revert stack s. induction contexts as [|c rest IH]; intros stack s.
  - destruct s. cbn. by rewrite !app_nil_r.
  - cbn [enter_contexts]. unfold bind. destruct c as [p|d]; cbn [enter res st evs];
      rewrite IH; cbn [res st evs fs command_prefixes command_cwds prefixes_of dirs_of flat_map];
      by rewrite <- !app_assoc.
Qed.

(** C6: [node_context] enters the sourcing of the version manager
    first, then [nvm use] exactly when [.nvmrc] is a file, then the
    caller's contexts in their order; the returned stack and the
    prefixes and directories pushed on the context are that list, so
    with and without the pin file they differ by the one [nvm use]. *)
Theorem node_context_composition (cfg : config) (more : list cm) (s : state) :
  let o := node_context cfg more s in
  let pin := if is_file (fs s) (NVMRC_PATH cfg) then [Prefix "nvm use"] else [] in
  let entered := source_nvm cfg :: pin ++ more in
  res o = inr entered ∧
  fs (st o) = fs s ∧
  command_prefixes (st o) = command_prefixes s ++ prefixes_of entered ∧
  command_cwds (st o) = command_cwds s ++ dirs_of entered ∧
  evs o = [EIsFile (NVMRC_PATH cfg) (is_file (fs s) (NVMRC_PATH cfg))].
Proof.
  unfold node_context, bind, path_is_file. cbn [res st evs].
  rewrite enter_contexts_outcome. cbn [res st evs fs command_prefixes command_cwds].
  destruct (is_file (fs s) (NVMRC_PATH cfg)); done.
Qed.

(** ** Steps of a computation, compositionally *)

Section Emits.
Context (P : event → Prop).

Lemma emits_ret {A} (a : A) : emits P (ret a).
Proof. intros s. constructor. Qed.

Lemma emits_raise {A} (e : exn) : emits P (@raise A e).
Proof. intros s. constructor. Qed.

Lemma emits_lift {A} (r : exn + A) : emits P (lift r).
Proof. destruct r; [apply emits_raise|apply emits_ret]. Qed.

Lemma emits_bind {A B} (c : M A) (k : A → M B) :
  emits P c → (∀ a, emits P (k a)) → emits P (bind c k).
Proof.
  intros Hc Hk s. unfold bind. specialize (Hc s).
  destruct (res (c s)) as [e|a]; cbn [evs]; [done|].
  apply Forall_app. split; [done|apply Hk].
Qed.

Lemma emits_finally {A} (c : M A) (fin : M unit) :
  emits P c → emits P fin → emits P (finally c fin).
Proof.
  intros Hc Hf s. unfold finally. cbn [evs]. apply Forall_app. split; [apply Hc|apply Hf].
Qed.

Lemma emits_if {A} (b : bool) (c1 c2 : M A) :
  emits P c1 → emits P c2 → emits P (if b then c1 else c2).
Proof. by destruct b. Qed.

Lemma emits_emit (e : event) : P e → emits P (emit e).
Proof. intros He s. by repeat constructor. Qed.

Lemma emits_enter (c : cm) : emits P (enter c).
Proof. intros s. destruct c; constructor. Qed.

Lemma emits_leave (c : cm) : emits P (leave c).
Proof. intros s. destruct c; constructor. Qed.

Lemma emits_for_each {A} (f : A → M unit) (l : list A) :
  (∀ x, emits P (f x)) → emits P (for_each f l).
Proof.
  intros Hf. induction l as [|x rest IH]; [apply emits_ret|].
  cbn [for_each]. apply emits_bind; [apply Hf|done].
Qed.

Lemma emits_with_cm {A} (c : cm) (body : M A) : emits P body → emits P (with_cm c body).
Proof.
  intros Hb. unfold with_cm. apply emits_bind; [apply emits_enter|intros _].
  apply emits_finally; [done|apply emits_leave].
Qed.

Lemma emits_with_stack {A} (stack : list cm) (body : M A) :
  emits P body → emits P (with_stack stack body).
Proof.
  intros Hb. unfold with_stack. apply emits_finally; [done|].
  apply emits_for_each, emits_leave.
Qed.

Lemma emits_enter_contexts (stack contexts : list cm) :
  emits P (enter_contexts stack contexts).
Proof. intros s. rewrite enter_contexts_outcome. constructor. Qed.

Lemma emits_run (m : machine) (cmd : string) (env : gmap string string) :
  (∀ line code, P (ERun cmd line env code)) → emits P (run m cmd env).
Proof. intros H s. rewrite run_unfold. by repeat constructor. Qed.

Lemma emits_path_is_file (p : path) : (∀ b, P (EIsFile p b)) → emits P (path_is_file p).
Proof. intros H s. by repeat constructor. Qed.

Lemma emits_read_text (p : path) : P (ERead p) → emits P (read_text p).
Proof. intros H s. unfold read_text. destruct (fs s !! p) as [[c|]|]; by repeat constructor. Qed.

Lemma emits_open_readline (m : machine) (p : path) :
  P (ERead p) → emits P (open_readline m p).
Proof.
  intros H s. unfold open_readline. destruct (fs s !! p) as [[c|]|]; by repeat constructor.
Qed.

Lemma emits_open_append (p : path) : emits P (open_append p).
Proof.
  intros s. unfold open_append.
  destruct (fs s !! p) as [[c|]|]; [| |destruct (dir_exists _ _)]; constructor.
Qed.

Lemma emits_open_write (p : path) : P (ETruncate p) → emits P (open_write p).
Proof.
  intros H s. unfold open_write.
  destruct (fs s !! p) as [[c|]|]; [| |destruct (dir_exists _ _)]; by repeat constructor.
Qed.

Lemma emits_write (p : path) (data : string) : P (EAppend p data) → emits P (write p data).
Proof. intros H s. unfold write. destruct (fs s !! p) as [[c|]|]; by repeat constructor. Qed.

Lemma emits_os_makedirs (p : path) : P (EMakedirs p) → emits P (os_makedirs p).
Proof. intros H s. unfold os_makedirs. destruct (makedirs_from _ _ _); by repeat constructor. Qed.

Lemma emits_listdir (m : machine) (p : path) : P (EListdir p) → emits P (listdir m p).
Proof. intros H s. unfold listdir. destruct (os_listdir _ _ _); by repeat constructor. Qed.

Lemma emits_shutil_move (m : machine) (src dst : path) :
  P (EMove src dst) → emits P (shutil_move m src dst).
Proof. intros H s. unfold shutil_move. destruct (os_move _ _ _ _); by repeat constructor. Qed.

Lemma emits_http_get (m : machine) (url : string) :
  (∀ status, P (EGet url status)) → emits P (http_get m url).
Proof. intros H s. unfold http_get. destruct (requests_get _ _); by repeat constructor. Qed.

Lemma emits_clean (which : path) : P (ERmtree which) → emits P (clean which).
Proof. intros H s. by repeat constructor. Qed.

Lemma emits_node_context (cfg : config) (more : list cm) :
  (∀ b, P (EIsFile (NVMRC_PATH cfg) b)) → emits P (node_context cfg more).
Proof.
  intros H. unfold node_context.
  apply emits_bind; [by apply emits_path_is_file|intros b; apply emits_enter_contexts].
Qed.

End Emits.

(** Peels one construct off a goal [emits P c]. *)
Ltac emits_step :=
  lazymatch goal with
  | |- emits _ (bind _ _) => apply emits_bind; [|intros ?]
  | |- emits _ (ret _) => apply emits_ret
  | |- emits _ (lift _) => apply emits_lift
  | |- emits _ (if _ then _ else _) => apply emits_if
  | |- emits _ (with_cm _ _) => apply emits_with_cm
  | |- emits _ (with_stack _ _) => apply emits_with_stack
  | |- emits _ (log_info _) => apply emits_emit
  | |- emits _ (run _ _ _) => apply emits_run; intros ? ?
  | |- emits _ (path_is_file _) => apply emits_path_is_file; intros ?
  | |- emits _ (read_text _) => apply emits_read_text
  | |- emits _ (open_readline _ _) => apply emits_open_readline
  | |- emits _ (open_append _) => apply emits_open_append
  | |- emits _ (open_write _) => apply emits_open_write
  | |- emits _ (write _ _) => apply emits_write
  | |- emits _ (for_each _ _) => apply emits_for_each; intros ?
  | |- emits _ (node_context _ _) => apply emits_node_context; intros ?
  | |- emits _ (os_makedirs _) => apply emits_os_makedirs
  | |- emits _ (listdir _ _) => apply emits_listdir
  | |- emits _ (shutil_move _ _ _) => apply emits_shutil_move
  | |- emits _ (http_get _ _) => apply emits_http_get; intros ?
  | |- emits _ (clean _) => apply emits_clean
  end.

(** ** The error policy *)

Lemma disciplined_of_emits {A} (c : M A) : emits run_ok c → disciplined c.
Proof. intros H s. left. apply H. Qed.

Lemma disciplined_bind {A B} (c : M A) (k : A → M B) :
  disciplined c → (∀ a, disciplined (k a)) → disciplined (bind c k).
Proof.
  intros Hc Hk s. unfold bind. specialize (Hc s).
  destruct (res (c s)) as [e|a] eqn:Hres.
  - destruct Hc as [Hq|(pre & cmd & line & env & code & He & Hpre & Hcode & Hr)].
    + by left.
    + right. exists pre, cmd, line, env, code. cbn [res evs].
      split_and!; [done|done|done|congruence].
  - destruct Hc as [Hq|(pre & cmd & line & env & code & He & Hpre & Hcode & Hr)];
      [|congruence].
    destruct (Hk a (st (c s)))
      as [Hq'|(pre & cmd & line & env & code & He & Hpre & Hcode & Hr)].
    + left. cbn [evs]. by apply Forall_app.
    + right. exists (evs (c s) ++ pre), cmd, line, env, code. cbn [res evs].
      rewrite He, app_assoc. split_and!; [done|by apply Forall_app|done|done].
Qed.

Lemma disciplined_finally {A} (c : M A) (fin : M unit) :
  disciplined c → silent fin → disciplined (finally c fin).
Proof.
  intros Hc Hf s. unfold finally. destruct (Hf (st (c s))) as [He Hr].
  rewrite He, Hr, app_nil_r. specialize (Hc s).
  destruct Hc as [Hq|(pre & cmd & line & env & code & Hev & Hpre & Hcode & Hres)].
  - by left.
  - right. by exists pre, cmd, line, env, code.
Qed.

Lemma disciplined_if {A} (b : bool) (c1 c2 : M A) :
  disciplined c1 → disciplined c2 → disciplined (if b then c1 else c2).
Proof. by destruct b. Qed.

Lemma disciplined_run (m : machine) (cmd : string) (env : gmap string string) :
  disciplined (run m cmd env).
Proof.
  intros s. rewrite run_unfold.
  destruct (Z.eqb_spec (shell m (fs s) (prefix_commands s cmd) env).1.1 0) as [Hz|Hnz].
  - left. by repeat constructor.
  - right. eexists [], _, _, _, _. cbn [res evs app]. split_and!; [done|constructor|done|done].
Qed.

Lemma disciplined_for_each {A} (f : A → M unit) (l : list A) :
  (∀ x, disciplined (f x)) → disciplined (for_each f l).
Proof.
  intros Hf. induction l as [|x rest IH].
  - apply disciplined_of_emits, emits_ret.
  - cbn [for_each]. apply disciplined_bind; [apply Hf|done].
Qed.

Lemma silent_leave (c : cm) : silent (leave c).
Proof. intros s. by destruct c. Qed.

Lemma silent_for_each_leave (stack : list cm) : silent (for_each leave stack).
Proof.
  induction stack as [|c rest IH]; intros s; [done|].
  cbn [for_each]. unfold bind. destruct (silent_leave c s) as [He Hr].
  rewrite Hr. cbn [res evs]. rewrite He. apply IH.
Qed.

Lemma disciplined_with_cm {A} (c : cm) (body : M A) :
  disciplined body → disciplined (with_cm c body).
Proof.
  intros Hb. unfold with_cm. apply disciplined_bind.
  - apply disciplined_of_emits, emits_enter.
  - intros _. apply disciplined_finally; [done|apply silent_leave].
Qed.

Lemma disciplined_with_stack {A} (stack : list cm) (body : M A) :
  disciplined body → disciplined (with_stack stack body).
Proof.
  intros Hb. unfold with_stack.
  apply disciplined_finally; [done|apply silent_for_each_leave].
Qed.

(** Peels one construct off a goal [disciplined c]; a leaf that is not
    a subprocess is discharged through [emits run_ok]. *)
Ltac disciplined_step :=
  lazymatch goal with
  | |- disciplined (bind _ _) => apply disciplined_bind; [|intros ?]
  | |- disciplined (if _ then _ else _) => apply disciplined_if
  | |- disciplined (with_cm _ _) => apply disciplined_with_cm
  | |- disciplined (with_stack _ _) => apply disciplined_with_stack
  | |- disciplined (run _ _ _) => apply disciplined_run
  | |- disciplined (for_each _ _) => apply disciplined_for_each; intros ?
  | |- disciplined _ => apply disciplined_of_emits; repeat emits_step; exact I
  end.

Lemma disciplined_has_federalist_script (cfg : config) (m : machine) :
  disciplined (has_federalist_script cfg m).
Proof. unfold has_federalist_script. repeat disciplined_step. Qed.

Lemma disciplined_install_hugo (cfg : config) (m : machine) (version : string) :
  disciplined (install_hugo cfg m version).
Proof. unfold install_hugo. repeat disciplined_step. Qed.

Lemma disciplined_body (cfg : config) (m : machine) (t : task) :
  disciplined (body cfg m t).
Proof.
  destruct t; cbn [body].
  - unfold setup_node. repeat disciplined_step.
  - unfold run_federalist_script. repeat disciplined_step.
    apply disciplined_has_federalist_script.
  - unfold setup_ruby. repeat disciplined_step.
  - unfold build_jekyll. repeat disciplined_step.
  - apply disciplined_install_hugo.
  - unfold build_hugo. repeat disciplined_step. apply disciplined_install_hugo.
  - repeat disciplined_step.
  - unfold build_static. repeat disciplined_step.
Qed.

Lemma disciplined_aborts {A} (o : outcome A) : disciplined_outcome o → aborts_on_failure o.
Proof.
  intros Hd pre cmd line env code post Hev Hcode.
  destruct Hd as [Hq|(pre' & cmd' & line' & env' & code' & Hev' & Hpre & Hcode' & Hres)].
  - rewrite Hev in Hq. apply Forall_app in Hq as [_ Hq].
    apply Forall_cons in Hq as [Hq _]. done.
  - rewrite Hev in Hev'. destruct post as [|x post _] using rev_ind.
    + apply app_inj_tail in Hev' as [_ Heq]. by simplify_eq.
    + change (pre ++ ERun cmd line env code :: post ++ [x])
        with (pre ++ (ERun cmd line env code :: post) ++ [x]) in Hev'.
      rewrite app_assoc in Hev'. apply app_inj_tail in Hev' as [Heq _].
      rewrite <- Heq in Hpre. apply Forall_app in Hpre as [_ Hpre].
      apply Forall_cons in Hpre as [Hq _]. done.
Qed.

(** C5: in every task of the module, run on its own ([body]) or
    through [invoke] with its prerequisites first ([execute]), a
    subprocess that exits with a non-zero code is the last step taken
    (no later subprocess, file operation or log line), and the task
    ends with [UnexpectedExit] carrying that same code. *)
Theorem failing_subprocess_aborts
    (cfg : config) (m : machine) (t : task) (s : state) (o : outcome unit)
    (pre : list event) (cmd line : string) (env : gmap string string) (code : Z)
    (post : list event) :
  o = body cfg m t s ∨ o = execute cfg m t s →
  evs o = pre ++ ERun cmd line env code :: post →
  code ≠ 0 →
  post = [] ∧ res o = inl (UnexpectedExit code).
Proof.
  intros Ho. apply disciplined_aborts. destruct Ho as [->| ->].
  - apply disciplined_body.
  - unfold execute. apply disciplined_for_each. intros t'. apply disciplined_body.
Qed.

(** The policy at work: with a [Gemfile] in the clone and a failing
    [bundle install], [invoke build_jekyll] stops at that command with
    its exit code; the Jekyll build is never reached. *)
Example build_jekyll_stops_at_bundle_install :
  let o := execute cfg0 bundle_fails_machine
             (BuildJekyll "main" "owner" "repo" "site/owner/repo" "" "/x")
             (State fs_ruby [] []) in
  res o = inl (UnexpectedExit 7) ∧
  last (evs o) =
    Some (ERun "bundle install"
               "cd /work/site_repo && source /usr/local/nvm/nvm.sh && source /usr/local/rvm/scripts/rvm && bundle install"
               ∅ 7) ∧
  commands (evs o) =
    ["node --version"; "npm --version"; "rvm install {ruby_version}"; "ruby -v";
     "gem install bundler"; "bundle install"].
Proof. vm_compute. repeat split. Qed.

Lemma failing_subprocess_aborts_witness :
  (@nil event) = [] ∧
  res (execute cfg0 bundle_fails_machine
         (BuildJekyll "main" "owner" "repo" "site/owner/repo" "" "/x")
         (State fs_ruby [] [])) = inl (UnexpectedExit 7).
Proof.
  eapply (failing_subprocess_aborts cfg0 bundle_fails_machine
            (BuildJekyll "main" "owner" "repo" "site/owner/repo" "" "/x")
            (State fs_ruby [] []) _
            (removelast (evs (execute cfg0 bundle_fails_machine
               (BuildJekyll "main" "owner" "repo" "site/owner/repo" "" "/x")
               (State fs_ruby [] []))))
            "bundle install"
            "cd /work/site_repo && source /usr/local/nvm/nvm.sh && source /usr/local/rvm/scripts/rvm && bundle install"
            ∅ 7 []).
  - right. reflexivity.
  - vm_compute. reflexivity.
  - lia.
Defined.

(** ** The configuration append *)

Section Keeps.
Context (p : path).

Lemma keeps_ret {A} (a : A) : keeps p (ret a).
Proof. by intros s. Qed.

Lemma keeps_bind {A B} (c : M A) (k : A → M B) :
  keeps p c → (∀ a, keeps p (k a)) → keeps p (bind c k).
Proof.
  intros Hc Hk s. unfold bind. specialize (Hc s).
  destruct (res (c s)) as [e|a]; cbn [st]; [done|]. by rewrite Hk.
Qed.

Lemma keeps_finally {A} (c : M A) (fin : M unit) :
  keeps p c → keeps p fin → keeps p (finally c fin).
Proof. intros Hc Hf s. unfold finally. cbn [st]. by rewrite Hf. Qed.

Lemma keeps_if {A} (b : bool) (c1 c2 : M A) :
  keeps p c1 → keeps p c2 → keeps p (if b then c1 else c2).
Proof. by destruct b. Qed.

Lemma keeps_emit (e : event) : keeps p (emit e).
Proof. by intros s. Qed.

Lemma keeps_enter (c : cm) : keeps p (enter c).
Proof. intros s. by destruct c. Qed.

Lemma keeps_leave (c : cm) : keeps p (leave c).
Proof. intros s. by destruct c. Qed.

Lemma keeps_for_each {A} (f : A → M unit) (l : list A) :
  (∀ x, keeps p (f x)) → keeps p (for_each f l).
Proof.
  intros Hf. induction l as [|x rest IH]; [apply keeps_ret|].
  cbn [for_each]. apply keeps_bind; [apply Hf|done].
Qed.

Lemma keeps_with_stack {A} (stack : list cm) (body : M A) :
  keeps p body → keeps p (with_stack stack body).
Proof.
  intros Hb. unfold with_stack. apply keeps_finally; [done|].
  apply keeps_for_each, keeps_leave.
Qed.

Lemma keeps_path_is_file (q : path) : keeps p (path_is_file q).
Proof. by intros s. Qed.

Lemma keeps_node_context (cfg : config) (more : list cm) : keeps p (node_context cfg more).
Proof.
  intros s. unfold node_context, bind, path_is_file. cbn [res st evs].
  by rewrite enter_contexts_outcome.
Qed.

Lemma keeps_run (m : machine) (cmd : string) (env : gmap string string) :
  (∀ f line env', (shell m f line env').2 !! p = f !! p) → keeps p (run m cmd env).
Proof. intros H s. rewrite run_unfold. cbn [st fs]. apply H. Qed.

End Keeps.

Ltac keeps_step :=
  lazymatch goal with
  | |- keeps _ (bind _ _) => apply keeps_bind; [|intros ?]
  | |- keeps _ (ret _) => apply keeps_ret
  | |- keeps _ (if _ then _ else _) => apply keeps_if
  | |- keeps _ (with_stack _ _) => apply keeps_with_stack
  | |- keeps _ (log_info _) => apply keeps_emit
  | |- keeps _ (run _ _ _) => apply keeps_run
  | |- keeps _ (path_is_file _) => apply keeps_path_is_file
  | |- keeps _ (node_context _ _) => apply keeps_node_context
  end.

Lemma open_append_ok (p : path) (s : state) (old : string) :
  prior_contents (fs s) p = Some old →
  ∃ f1, open_append p s =
          Outcome (inr tt) (State f1 (command_prefixes s) (command_cwds s)) [] ∧
        f1 !! p = Some (RegFile old).
Proof.
  unfold prior_contents, open_append. intros H.
  destruct (fs s !! p) as [[c|]|] eqn:Hp.
  - exists (fs s). destruct s. by simplify_eq.
  - done.
  - destruct (dir_exists (fs s) (parent p)); [|done]. simplify_eq.
    eexists. split; [done|]. by rewrite lookup_insert_eq.
Qed.

(** C4: when [_config.yml] can be opened for appending and holds [old],
    [build_jekyll] writes to it, in this order, a newline with
    [baseurl: <base_url>] and a newline, [branch: <branch>] and a
    newline, and the raw config text, and it writes to no other file
    of its own; if the commands it then runs leave the file alone, the
    file ends up as [old] followed by exactly that text, however the
    build ends. *)
Theorem build_jekyll_appends_config
    (cfg : config) (m : machine)
    (branch owner repository site_prefix config base_url : string)
    (s : state) (old : string) :
  prior_contents (fs s) (JEKYLL_CONF_YML_PATH cfg) = Some old →
  (∀ f line env,
     (shell m f line env).2 !! JEKYLL_CONF_YML_PATH cfg = f !! JEKYLL_CONF_YML_PATH cfg) →
  let o := build_jekyll cfg m branch owner repository site_prefix config base_url s in
  fs (st o) !! JEKYLL_CONF_YML_PATH cfg =
    Some (RegFile (old +:+ nl +:+ "baseurl: " +:+ base_url +:+ nl +:+
                   "branch: " +:+ branch +:+ nl +:+ config)) ∧
  ∃ later,
    evs o =
      [EAppend (JEKYLL_CONF_YML_PATH cfg) (nl +:+ "baseurl: " +:+ base_url +:+ nl);
       EAppend (JEKYLL_CONF_YML_PATH cfg) ("branch: " +:+ branch +:+ nl);
       EAppend (JEKYLL_CONF_YML_PATH cfg) config] ++ later ∧
    Forall not_a_write later.
Proof.
  intros Hold Hshell o. subst o. unfold build_jekyll.
  destruct (open_append_ok _ s old Hold) as (f1 & Hopen & Hf1).
  erewrite bind_inr by exact Hopen. cbn [res st evs app].
  erewrite bind_inr by (by apply (for_each_write _ _ _ old)).
  cbn [res st evs fs command_prefixes command_cwds map].
  set (rest := bind (node_context _ _) _).
  assert (Hkeeps : keeps (JEKYLL_CONF_YML_PATH cfg) rest)
    by (subst rest; repeat keeps_step; done).
  assert (Hemits : emits not_a_write rest)
    by (subst rest; repeat emits_step; exact I).
  split.
  - rewrite Hkeeps. cbn [fs]. rewrite lookup_insert_eq.
    do 2 f_equal. change (String.concat "" ?l) with
      ((nl +:+ "baseurl: " +:+ base_url +:+ nl) +:+ ("branch: " +:+ branch +:+ nl) +:+ config).
    by rewrite !append_assoc.
  - eexists. split; [reflexivity|apply Hemits].
Qed.

Lemma build_jekyll_appends_config_witness :
  let o := build_jekyll cfg0 quiet "main" "owner" "repo" "site/owner/repo"
             ("foo: bar" +:+ nl) "/x" s0 in
  fs (st o) !! JEKYLL_CONF_YML_PATH cfg0 =
    Some (RegFile (("title: x" +:+ nl) +:+ nl +:+ "baseurl: " +:+ "/x" +:+ nl +:+
                   "branch: " +:+ "main" +:+ nl +:+ "foo: bar" +:+ nl)) ∧
  ∃ later,
    evs o =
      [EAppend (JEKYLL_CONF_YML_PATH cfg0) (nl +:+ "baseurl: " +:+ "/x" +:+ nl);
       EAppend (JEKYLL_CONF_YML_PATH cfg0) ("branch: " +:+ "main" +:+ nl);
       EAppend (JEKYLL_CONF_YML_PATH cfg0) ("foo: bar" +:+ nl)] ++ later ∧
    Forall not_a_write later.
Proof.
  apply (build_jekyll_appends_config cfg0 quiet "main" "owner" "repo" "site/owner/repo"
           ("foo: bar" +:+ nl) "/x" s0 ("title: x" +:+ nl)).
  - reflexivity.
  - intros f line env. reflexivity.
Defined.

(** ** The Node set-up *)

Lemma truthy_render (p : path) : truthy (escape_spaces (render p)) = true.
Proof. by destruct p. Qed.

Lemma prefix_commands_in_dir (f : gmap (list string) node) (ps : list string)
    (dir cmd : string) :
  truthy (escape_spaces dir) = true →
  prefix_commands (State f ps [dir]) cmd =
    String.concat " && " (("cd " +:+ escape_spaces dir) :: ps ++ [cmd]).
Proof. intros H. unfold prefix_commands, cwd. cbn. by rewrite H. Qed.

Lemma evs_with_cm {A} (c : cm) (body : M A) (s : state) :
  evs (with_cm c body s) = evs (body (st (enter c s))).
Proof.
  unfold with_cm, bind, finally. destruct c; cbn [enter res st evs app];
    by rewrite app_nil_r.
Qed.

Lemma evs_bind_inr {A B} (c : M A) (k : A → M B) (s : state) a s1 e1 :
  c s = Outcome (inr a) s1 e1 →
  evs (bind c k s) = e1 ++ evs (k a s1).
Proof. intros H. by rewrite (bind_inr _ _ _ _ _ _ H). Qed.

Lemma evs_bind_run {B} (m : machine) (cmd : string) (env : gmap string string)
    (k : string → M B) (s : state) :
  evs (bind (run m cmd env) k s) =
    ERun cmd (prefix_commands s cmd) env (shell m (fs s) (prefix_commands s cmd) env).1.1 ::
    (if (shell m (fs s) (prefix_commands s cmd) env).1.1 =? 0
     then evs (k (shell m (fs s) (prefix_commands s cmd) env).1.2
                 (State (shell m (fs s) (prefix_commands s cmd) env).2
                        (command_prefixes s) (command_cwds s)))
     else []).
Proof.
  unfold bind. rewrite run_unfold. cbn [res st evs].
  by destruct (_ =? 0).
Qed.

Lemma bind_assoc {A B C} (c : M A) (k1 : A → M B) (k2 : B → M C) (s : state) :
  bind (bind c k1) k2 s = bind c (fun a => bind (k1 a) k2) s.
Proof.
  unfold bind. destruct (res (c s)) as [e|a]; cbn [res st evs]; [done|].
  destruct (res (k1 a (st (c s)))) as [e|b]; cbn [res st evs]; [done|].
  by rewrite app_assoc.
Qed.

Lemma evs_ret {A} (a : A) (s : state) : evs (ret a s) = [].
Proof. done. Qed.

(** One step of reading off the events of a computation that runs
    inside a directory: a subprocess step names the outcome of the
    shell and splits on its exit code. *)
Ltac evs_step :=
  first
    [ rewrite bind_assoc
    | rewrite evs_bind_run;
      rewrite ?prefix_commands_in_dir by apply truthy_render;
      cbn [fs command_prefixes command_cwds st enter app];
      match goal with
      | |- context [shell ?m ?f ?l ?e] => destruct (shell m f l e) as [[? ?] ?]
      end;
      cbn [fst snd];
      match goal with
      | |- context [if ?c =? 0 then _ else _] => destruct (c =? 0)
      end
    | erewrite evs_bind_inr by reflexivity
    | rewrite evs_with_cm
    | rewrite evs_ret ];
  cbn [fs command_prefixes command_cwds st enter app].

(** Goals [x ∈ l] and hypotheses [x ∈ l] over a spelled-out list. *)
Ltac in_list := repeat (apply elem_of_cons; first [left; reflexivity|right]).

Ltac not_in_list H :=
  repeat (apply elem_of_cons in H as [H|H]; [try (by simplify_eq)|]);
  try (by apply elem_of_nil in H).

Lemma clone_paths_differ (cfg : config) : PACKAGE_JSON_PATH cfg ≠ NVMRC_PATH cfg.
Proof. unfold PACKAGE_JSON_PATH, NVMRC_PATH. intros H. by apply app_inv_head in H. Qed.

(** C10: in [setup_node], started on a fresh context in a clone that
    has [package.json] (and with commands that do not remove it), the
    production install is issued with the [nvm use] prefix, whether
    [.nvmrc] is there or not: unless [nvm install] or a version check
    failed before it, the install is among the steps, on the line
    [cd <clone> && source <nvm.sh> && nvm use && npm install --production]
    (the spaces of the clone path escaped) and with no variables.  Whether [.nvmrc] is a file decides only
    whether [nvm install] runs first.  [node_context], by contrast,
    leaves [nvm use] out when there is no [.nvmrc]. *)
Theorem setup_node_nvm_use_unconditional (cfg : config) (m : machine) (s : state) :
  command_prefixes s = [] →
  command_cwds s = [] →
  is_file (fs s) (PACKAGE_JSON_PATH cfg) = true →
  (∀ f line env,
     (shell m f line env).2 !! PACKAGE_JSON_PATH cfg = f !! PACKAGE_JSON_PATH cfg) →
  let o := setup_node cfg m s in
  ((∃ code, ERun "npm install --production" (npm_install_line cfg) ∅ code ∈ evs o) ∨
   (∃ cmd line code,
      last (evs o) = Some (ERun cmd line ∅ code) ∧ code ≠ 0 ∧ cmd ∈ version_commands)) ∧
  (∀ cmd line env code,
     ERun cmd line env code ∈ evs o → cmd = "npm install --production" →
     line = npm_install_line cfg ∧ env = ∅) ∧
  ("nvm install" ∈ commands (evs o) ↔ is_file (fs s) (NVMRC_PATH cfg) = true) ∧
  (∀ more s', is_file (fs s') (NVMRC_PATH cfg) = false →
     res (node_context cfg more s') = inr (source_nvm cfg :: more)).
Proof.
  intros Hp Hc Hpkg Hshell o. destruct s as [f ps cw].
  cbn [fs command_prefixes command_cwds] in *. subst ps cw o.
  assert (Hfile : ∀ g line env,
            is_file (shell m g line env).2 (PACKAGE_JSON_PATH cfg) =
            is_file g (PACKAGE_JSON_PATH cfg))
    by (intros; unfold is_file; by rewrite Hshell).
  match goal with
  | |- ?A ∧ ?B ∧ ?C ∧ ?D =>
      enough (Hmain : A ∧ B ∧ C);
      [destruct Hmain as (Ha & Hb & Hc); split_and!; [done|done|done|]|]
  end.
  { intros more s' Hpin. unfold node_context, bind, path_is_file. cbn [res st evs].
    by rewrite Hpin, enter_contexts_outcome. }
  unfold setup_node. rewrite !evs_with_cm.
  cbn [enter st app cd_clone source_nvm fs command_prefixes command_cwds].
  erewrite evs_bind_inr by reflexivity. cbn [fs app].
  destruct (is_file f (NVMRC_PATH cfg));
    repeat (first [ rewrite bind_assoc
                  | rewrite evs_bind_run
                  | erewrite evs_bind_inr by reflexivity
                  | rewrite evs_with_cm
                  | rewrite evs_ret ];
            cbn [fs command_prefixes command_cwds st enter app];
            rewrite ?prefix_commands_in_dir by apply truthy_render;
            rewrite ?Hfile, ?Hpkg).
  all: repeat match goal with
       | |- context [if ?c =? 0 then _ else _] => destruct (Z.eqb_spec c 0)
       end.
  all: cbn [commands flat_map app].
  all: split_and!.
  all: try (intros cmd line env code Hin ->; not_in_list Hin; done).
  all: try (split; [intros Hin; first [reflexivity|exfalso; not_in_list Hin]
                   |intros Heq; first [by in_list|discriminate]]).
  all: first [ by (left; eexists; in_list)
             | right; eexists _, _, _; split_and!;
               [reflexivity|eassumption|unfold version_commands; in_list] ].
Qed.

Lemma setup_node_nvm_use_unconditional_witness :
  let o := setup_node cfg0 quiet s0 in
  ((∃ code, ERun "npm install --production" (npm_install_line cfg0) ∅ code ∈ evs o) ∨
   (∃ cmd line code,
      last (evs o) = Some (ERun cmd line ∅ code) ∧ code ≠ 0 ∧ cmd ∈ version_commands)) ∧
  (∀ cmd line env code,
     ERun cmd line env code ∈ evs o → cmd = "npm install --production" →
     line = npm_install_line cfg0 ∧ env = ∅) ∧
  ("nvm install" ∈ commands (evs o) ↔ is_file (fs s0) (NVMRC_PATH cfg0) = true) ∧
  (∀ more s', is_file (fs s') (NVMRC_PATH cfg0) = false →
     res (node_context cfg0 more s') = inr (source_nvm cfg0 :: more)).
Proof.
  apply (setup_node_nvm_use_unconditional cfg0 quiet s0); reflexivity.
Defined.

(** Without [.nvmrc] and with a manifest, [setup_node] still wraps the
    install in [nvm use]. *)
Example setup_node_without_pin :
  is_file fs0 (NVMRC_PATH cfg0) = false ∧
  last (evs (setup_node cfg0 quiet s0)) =
    Some (ERun "npm install --production"
               "cd /work/site_repo && source /usr/local/nvm/nvm.sh && nvm use && npm install --production"
               ∅ 0).
Proof. vm_compute. split; reflexivity. Qed.

(** * Contexts, commands and shell lines *)

(** ** Scoped contexts are always released *)

Lemma leave_all (stack : list cm) (f : gmap (list string) node) (ps cw : list string) :
  for_each leave (rev stack)
    (State f (ps ++ prefixes_of stack) (cw ++ dirs_of stack)) =
  Outcome (inr tt) (State f ps cw) [].
Proof.
  induction stack as [|c stack IH] using rev_ind.
  - cbn. by rewrite !app_nil_r.
  - rewrite rev_app_distr. cbn [rev app for_each].
    unfold prefixes_of, dirs_of. rewrite !flat_map_app. fold (prefixes_of stack) (dirs_of stack).
    unfold bind. destruct c as [p|d]; cbn [leave flat_map res st evs fs command_prefixes command_cwds app];
      rewrite ?app_nil_r, !app_assoc, ?removelast_last, IH; done.
Qed.

Section Balanced.

Lemma balanced_ret {A} (a : A) : balanced (ret a).
Proof. by intros s. Qed.

Lemma balanced_lift {A} (r : exn + A) : balanced (lift r).
Proof. by destruct r. Qed.

Lemma balanced_bind {A B} (c : M A) (k : A → M B) :
  balanced c → (∀ a, balanced (k a)) → balanced (bind c k).
Proof.
  intros Hc Hk s. unfold bind. destruct (Hc s) as [Hp Hw].
  destruct (res (c s)) as [e|a]; cbn [st]; [done|].
  destruct (Hk a (st (c s))) as [Hp' Hw']. split; congruence.
Qed.

Lemma balanced_if {A} (b : bool) (c1 c2 : M A) :
  balanced c1 → balanced c2 → balanced (if b then c1 else c2).
Proof. by destruct b. Qed.

Lemma balanced_for_each {A} (f : A → M unit) (l : list A) :
  (∀ x, balanced (f x)) → balanced (for_each f l).
Proof.
  intros Hf. induction l as [|x rest IH]; [apply balanced_ret|].
  cbn [for_each]. apply balanced_bind; [apply Hf|done].
Qed.

Lemma balanced_with_cm {A} (c : cm) (body : M A) :
  balanced body → balanced (with_cm c body).
Proof.
  intros Hb s. unfold with_cm, bind, finally.
  destruct c as [p|d]; cbn [enter res st evs];
    match goal with |- context [body ?s1] => destruct (Hb s1) as [Hp Hw] end;
    cbn [leave st fs command_prefixes command_cwds] in *;
    rewrite ?Hp, ?Hw, ?removelast_last; done.
Qed.

Lemma node_context_outcome (cfg : config) (more : list cm) (s : state) :
  node_context cfg more s =
    Outcome
      (inr (source_nvm cfg ::
            (if is_file (fs s) (NVMRC_PATH cfg) then [Prefix "nvm use"] else []) ++ more))
      (State (fs s)
         (command_prefixes s ++
          prefixes_of (source_nvm cfg ::
            (if is_file (fs s) (NVMRC_PATH cfg) then [Prefix "nvm use"] else []) ++ more))
         (command_cwds s ++
          dirs_of (source_nvm cfg ::
            (if is_file (fs s) (NVMRC_PATH cfg) then [Prefix "nvm use"] else []) ++ more)))
      [EIsFile (NVMRC_PATH cfg) (is_file (fs s) (NVMRC_PATH cfg))].
Proof.
  unfold node_context, bind, path_is_file. cbn [res st evs].
  rewrite enter_contexts_outcome. cbn [res st evs fs command_prefixes command_cwds].
  by destruct (is_file (fs s) (NVMRC_PATH cfg)).
Qed.

(** [with node_context(ctx, ...): body] *)
Lemma balanced_node_context {A} (cfg : config) (more : list cm) (body : M A) :
  balanced body →
  balanced (bind (node_context cfg more) (fun stack => with_stack stack body)).
Proof.
  intros Hb s. rewrite (bind_inr _ _ _ _ _ _ (node_context_outcome cfg more s)).
  cbn [st]. unfold with_stack, finally. cbn [st].
  match goal with |- context [body ?s1] => destruct (Hb s1) as [Hp Hw];
    destruct (body s1) as [r [f ps cw] ev] end.
  cbn [st fs command_prefixes command_cwds] in *. subst ps cw.
  by rewrite leave_all.
Qed.

Lemma balanced_emit (e : event) : balanced (emit e).
Proof. by intros s. Qed.

Lemma balanced_run (m : machine) (cmd : string) (env : gmap string string) :
  balanced (run m cmd env).
Proof. intros s. by rewrite run_unfold. Qed.

Lemma balanced_path_is_file (p : path) : balanced (path_is_file p).
Proof. by intros s. Qed.

Lemma balanced_read_text (p : path) : balanced (read_text p).
Proof. intros s. unfold read_text. by repeat case_match. Qed.

Lemma balanced_open_readline (m : machine) (p : path) : balanced (open_readline m p).
Proof. intros s. unfold open_readline. by repeat case_match. Qed.

Lemma balanced_open_append (p : path) : balanced (open_append p).
Proof. intros s. unfold open_append. by repeat case_match. Qed.

Lemma balanced_open_write (p : path) : balanced (open_write p).
Proof. intros s. unfold open_write. by repeat case_match. Qed.

Lemma balanced_write (p : path) (data : string) : balanced (write p data).
Proof. intros s. unfold write. by repeat case_match. Qed.

Lemma balanced_os_makedirs (p : path) : balanced (os_makedirs p).
Proof. intros s. unfold os_makedirs. by repeat case_match. Qed.

Lemma balanced_listdir (m : machine) (p : path) : balanced (listdir m p).
Proof. intros s. unfold listdir. by repeat case_match. Qed.

Lemma balanced_shutil_move (m : machine) (src dst : path) : balanced (shutil_move m src dst).
Proof. intros s. unfold shutil_move. by repeat case_match. Qed.

Lemma balanced_http_get (m : machine) (url : string) : balanced (http_get m url).
Proof. intros s. unfold http_get. by repeat case_match. Qed.

Lemma balanced_clean (which : path) : balanced (clean which).
Proof. by intros s. Qed.

End Balanced.

Ltac balanced_step :=
  lazymatch goal with
  | |- balanced (bind (node_context _ _) _) => apply balanced_node_context
  | |- balanced (bind _ _) => apply balanced_bind; [|intros ?]
  | |- balanced (ret _) => apply balanced_ret
  | |- balanced (lift _) => apply balanced_lift
  | |- balanced (if _ then _ else _) => apply balanced_if
  | |- balanced (with_cm _ _) => apply balanced_with_cm
  | |- balanced (for_each _ _) => apply balanced_for_each; intros ?
  | |- balanced (log_info _) => apply balanced_emit
  | |- balanced (run _ _ _) => apply balanced_run
  | |- balanced (path_is_file _) => apply balanced_path_is_file
  | |- balanced (read_text _) => apply balanced_read_text
  | |- balanced (open_readline _ _) => apply balanced_open_readline
  | |- balanced (open_append _) => apply balanced_open_append
  | |- balanced (open_write _) => apply balanced_open_write
  | |- balanced (write _ _) => apply balanced_write
  | |- balanced (os_makedirs _) => apply balanced_os_makedirs
  | |- balanced (listdir _ _) => apply balanced_listdir
  | |- balanced (shutil_move _ _ _) => apply balanced_shutil_move
  | |- balanced (http_get _ _) => apply balanced_http_get
  | |- balanced (clean _) => apply balanced_clean
  end.

Lemma balanced_has_federalist_script (cfg : config) (m : machine) :
  balanced (has_federalist_script cfg m).
Proof. unfold has_federalist_script. repeat balanced_step. Qed.

Lemma balanced_install_hugo (cfg : config) (m : machine) (version : string) :
  balanced (install_hugo cfg m version).
Proof. unfold install_hugo. repeat balanced_step. Qed.

Lemma balanced_body (cfg : config) (m : machine) (t : task) : balanced (body cfg m t).
Proof.
  destruct t; cbn [body].
  - unfold setup_node. repeat balanced_step.
  - unfold run_federalist_script. repeat balanced_step.
    apply balanced_has_federalist_script.
  - unfold setup_ruby. repeat balanced_step.
  - unfold build_jekyll. repeat balanced_step.
  - apply balanced_install_hugo.
  - unfold build_hugo. repeat balanced_step. apply balanced_install_hugo.
  - repeat balanced_step.
  - unfold build_static. repeat balanced_step.
Qed.

(** X1: every task, run on its own or through [invoke] with its
    prerequisites, leaves the context's prefix and directory stacks
    exactly as it found them, whether it returns or raises: each
    [ctx.prefix], [ctx.cd] and [node_context] it enters is left again,
    also when a command inside fails. *)
Theorem tasks_release_their_contexts (cfg : config) (m : machine) (t : task) (s : state) :
  command_prefixes (st (body cfg m t s)) = command_prefixes s ∧
  command_cwds (st (body cfg m t s)) = command_cwds s ∧
  command_prefixes (st (execute cfg m t s)) = command_prefixes s ∧
  command_cwds (st (execute cfg m t s)) = command_cwds s.
Proof.
  destruct (balanced_body cfg m t s) as [Hp Hw].
  assert (He : balanced (execute cfg m t))
    by (apply balanced_for_each; intros t'; apply balanced_body).
  destruct (He s) as [Hp' Hw']. done.
Qed.

(** ** The Hugo build *)

(** X2: in [build_hugo] the package install and the version check get
    no variables, and the one [hugo] build command gets exactly the
    five generated variables; that command is
    [hugo --source . --destination <SITE_BUILD_DIR>], followed by
    [--baseUrl <base_url>] exactly when [base_url] is not empty.  No
    other command is run. *)
Theorem build_hugo_commands
    (cfg : config) (m : machine)
    (branch owner repository site_prefix base_url hugo_version : string) (s : state) :
  Forall (hugo_run_ok cfg branch owner repository site_prefix base_url)
         (evs (build_hugo cfg m branch owner repository site_prefix base_url hugo_version s)).
Proof.
  revert s. change (emits (hugo_run_ok cfg branch owner repository site_prefix base_url)
    (build_hugo cfg m branch owner repository site_prefix base_url hugo_version)).
  unfold build_hugo, install_hugo. repeat emits_step; cbn [hugo_run_ok]; eauto.
  right. split; [done|]. destruct (truthy base_url).
  - by rewrite append_assoc.
  - by rewrite append_nil_r.
Qed.

(** The two shapes of the build command. *)
Example build_hugo_base_url_flag :
  commands (evs (build_hugo cfg0 quiet "main" "owner" "repo" "site/owner/repo" "/x" "0.23" s0)) =
    ["dpkg -i /work/hugo.deb"; "hugo version";
     "hugo --source . --destination _site --baseUrl /x"] ∧
  commands (evs (build_hugo cfg0 quiet "main" "owner" "repo" "site/owner/repo" "" "0.23" s0)) =
    ["dpkg -i /work/hugo.deb"; "hugo version";
     "hugo --source . --destination _site"].
Proof. vm_compute. split; reflexivity. Qed.

Lemma bind_raises {A B} (c : M A) (k : A → M B) (s : state) x s1 e1 :
  c s = Outcome (inl x) s1 e1 →
  bind c k s = Outcome (inl x) s1 e1.
Proof. intros H. unfold bind. by rewrite H. Qed.

Lemma open_write_fails (p : path) (s : state) :
  writable (fs s) p = false → ∃ e, open_write p s = Outcome (inl e) s [].
Proof.
  unfold writable, open_write. intros H.
  destruct (fs s !! p) as [[c|]|]; [done|eauto|rewrite H; eauto].
Qed.

(** X5: [install_hugo] runs no command and touches no file unless the
    download returned a response and [hugo.deb] could be opened: when
    [requests.get] raises, or when [hugo.deb] cannot be opened for
    writing, the task ends with an exception, the machine state is the
    one it started from, and [dpkg] is never run. *)
Theorem install_hugo_needs_download
    (cfg : config) (m : machine) (version : string) (s : state) :
  (∃ e, requests_get m (hugo_url version) = inl e) ∨
  writable (fs s) (hugo_deb cfg) = false →
  let o := install_hugo cfg m version s in
  (∃ e, res o = inl e) ∧ st o = s ∧ commands (evs o) = [].
Proof.
  intros H o. subst o. unfold install_hugo.
  erewrite bind_inr by reflexivity. cbn [res st evs].
  destruct (requests_get m (hugo_url version)) as [e|r] eqn:Hget.
  - erewrite bind_raises by (unfold http_get; rewrite Hget; reflexivity).
    cbn. eauto.
  - destruct H as [[e He]|Hw]; [done|].
    erewrite bind_inr by (unfold http_get; rewrite Hget; reflexivity).
    destruct (open_write_fails _ s Hw) as [e He].
    erewrite bind_raises by exact He. cbn. eauto.
Qed.

Lemma install_hugo_needs_download_witness :
  let o := install_hugo cfg0 offline_machine "0.23" s0 in
  (∃ e, res o = inl e) ∧ st o = s0 ∧ commands (evs o) = [].
Proof.
  apply (install_hugo_needs_download cfg0 offline_machine "0.23" s0).
  left. eexists. reflexivity.
Defined.

(** ** The run order of a build *)

(** X3: [invoke] runs [setup_node] first and [run_federalist_script]
    second for each of the three builds, whatever their arguments, then
    [setup_ruby] before [build_jekyll], nothing more before
    [build_hugo], and the removal of the clone's [.git] before
    [build_static]; no task runs twice. *)
Theorem build_run_order (cfg : config)
    (branch owner repository site_prefix config base_url hugo_version : string) :
  dedupe [] (expand_calls cfg 3
               (BuildJekyll branch owner repository site_prefix config base_url)) =
    [SetupNode; RunFederalistScript; SetupRuby;
     BuildJekyll branch owner repository site_prefix config base_url] ∧
  dedupe [] (expand_calls cfg 3
               (BuildHugo branch owner repository site_prefix base_url hugo_version)) =
    [SetupNode; RunFederalistScript;
     BuildHugo branch owner repository site_prefix base_url hugo_version] ∧
  dedupe [] (expand_calls cfg 3 BuildStatic) =
    [SetupNode; RunFederalistScript; Clean (CLONE_DIR_PATH cfg ++ [".git"]); BuildStatic].
Proof.
  cbn [expand_calls pre flat_map app].
  repeat split; cbn [dedupe app];
    repeat (rewrite bool_decide_eq_false_2;
            [|intros Hin; repeat (apply elem_of_cons in Hin as [Hin|Hin]; [discriminate|]);
              by apply elem_of_nil in Hin]; cbn [dedupe app]); done.
Qed.

(** ** The Ruby set-up without a usable pin *)

(** X4: when [.ruby-version] is not a file, or the first line read
    from it is empty or white space only (any white space Python's
    [str.strip] removes), [setup_ruby] installs nothing: the only
    command it runs is [ruby -v]. *)
Theorem setup_ruby_without_pin (cfg : config) (m : machine) (s : state) :
  is_file (fs s) (RUBY_VERSION_PATH cfg) = false ∨
  (∃ bytes line, fs s !! RUBY_VERSION_PATH cfg = Some (RegFile bytes) ∧
                 text_readline m bytes = inr line ∧
                 strip line = []) →
  commands (evs (setup_ruby cfg m s)) = ["ruby -v"].
Proof.
  intros H. unfold setup_ruby. rewrite evs_with_cm.
  cbn [enter st source_rvm].
  erewrite evs_bind_inr by reflexivity. cbn [fs app].
  destruct H as [Hno|(bytes & line & Hbytes & Hline & Hblank)].
  - rewrite Hno. erewrite evs_bind_inr by reflexivity.
    rewrite evs_bind_run. cbn [commands flat_map app].
    by destruct (_ =? 0).
  - unfold is_file. rewrite Hbytes. rewrite bind_assoc.
    erewrite evs_bind_inr
      by (unfold open_readline; cbn [fs]; rewrite Hbytes, Hline; reflexivity).
    rewrite Hblank. cbn [truthy_text]. erewrite evs_bind_inr by reflexivity.
    rewrite evs_bind_run. cbn [commands flat_map app].
    by destruct (_ =? 0).
Qed.

Lemma setup_ruby_without_pin_witness :
  commands (evs (setup_ruby cfg0 quiet (State fs_blank_pin [] []))) = ["ruby -v"].
Proof.
  apply (setup_ruby_without_pin cfg0 quiet (State fs_blank_pin [] [])).
  right. exists ("  " +:+ nl), (code_points ("  " +:+ nl)). repeat split; reflexivity.
Defined.

(** X15: when [.ruby-version] is a file whose first line cannot be
    decoded, [setup_ruby] ends with the decoder's exception before any
    command: neither [rvm install] nor [ruby -v] is run, and the
    machine state is the one it started from. *)
Theorem setup_ruby_undecodable_pin (cfg : config) (m : machine) (s : state)
    (bytes : string) (e : exn) :
  fs s !! RUBY_VERSION_PATH cfg = Some (RegFile bytes) →
  text_readline m bytes = inl e →
  let o := setup_ruby cfg m s in
  res o = inl e ∧ commands (evs o) = [] ∧ st o = s.
Proof.
  intros Hbytes Hline o. subst o. destruct s as [f ps cw]. cbn [fs] in *.
  unfold setup_ruby, with_cm.
  erewrite bind_inr by reflexivity. cbn [res st evs app source_rvm].
  unfold finally.
  erewrite bind_inr by reflexivity. cbn [res st evs fs].
  unfold is_file. rewrite Hbytes. rewrite bind_assoc.
  erewrite bind_raises
    by (unfold open_readline; cbn [fs]; rewrite Hbytes, Hline; reflexivity).
  unfold source_rvm.
  cbn [res st evs enter leave fs command_prefixes command_cwds app commands flat_map].
  by rewrite removelast_last.
Qed.

Lemma setup_ruby_undecodable_pin_witness :
  let o := setup_ruby cfg0 quiet (State fs_bad_pin [] []) in
  res o = inl UnicodeDecodeError ∧ commands (evs o) = [] ∧ st o = State fs_bad_pin [] [].
Proof.
  apply (setup_ruby_undecodable_pin cfg0 quiet (State fs_bad_pin [] [])
           (String (ascii_of_nat 233) ("2.4.1" +:+ nl)) UnicodeDecodeError);
    reflexivity.
Defined.

(** ** The federalist script *)

Lemma has_federalist_script_declared (cfg : config) (m : machine) (s : state)
    text members scripts :
  fs s !! PACKAGE_JSON_PATH cfg = Some (RegFile text) →
  json_load m text = inr (JObject members) →
  dict_lookup "scripts" members = Some (JObject scripts) →
  "federalist" ∈ scripts.*1 →
  has_federalist_script cfg m s =
    Outcome (inr true) s
      [EIsFile (PACKAGE_JSON_PATH cfg) true; ERead (PACKAGE_JSON_PATH cfg)].
Proof.
  intros Hfile Hload Hscripts Hkey.
  unfold has_federalist_script, bind, path_is_file, read_text, is_file.
  rewrite Hfile. cbn [res st evs]. rewrite Hfile. cbn [res st evs].
  rewrite Hload. cbn [lift ret res st evs py_get]. rewrite Hscripts.
  cbn [default from_option id py_in lift ret res st evs app].
  by rewrite existsb_key, bool_decide_eq_true_2.
Qed.

(** X6: when the manifest declares the [federalist] script,
    [run_federalist_script], started on a fresh context, runs exactly
    one command, [npm run federalist], inside the clone directory (the
    spaces of its path escaped) after sourcing nvm, with [nvm use] in
    between exactly when [.nvmrc] is a file; it passes no variables, and the task fails exactly when the
    script exits non-zero, with its code. *)
Theorem run_federalist_script_declared (cfg : config) (m : machine) (s : state)
    (text : string) (members scripts : list (string * json)) :
  command_prefixes s = [] →
  command_cwds s = [] →
  fs s !! PACKAGE_JSON_PATH cfg = Some (RegFile text) →
  json_load m text = inr (JObject members) →
  dict_lookup "scripts" members = Some (JObject scripts) →
  "federalist" ∈ scripts.*1 →
  let o := run_federalist_script cfg m s in
  let line := federalist_line cfg (is_file (fs s) (NVMRC_PATH cfg)) in
  let code := (shell m (fs s) line ∅).1.1 in
  filter (fun e => is_run e = true) (evs o) =
    [ERun "npm run federalist" line ∅ code] ∧
  res o = (if code =? 0 then inr tt else inl (UnexpectedExit code)).
Proof.
  intros Hp Hw Hfile Hload Hscripts Hkey o line code. subst o.
  destruct s as [f ps cw]. cbn [fs command_prefixes command_cwds] in *. subst ps cw.
  assert (His : is_file f (PACKAGE_JSON_PATH cfg) = true)
    by (unfold is_file; by rewrite Hfile).
  unfold run_federalist_script.
  erewrite bind_inr by reflexivity. cbn [res st evs fs]. rewrite His.
  erewrite bind_inr
    by (by apply (has_federalist_script_declared _ _ _ text members scripts)).
  cbn [res st evs].
  erewrite bind_inr by apply node_context_outcome.
  cbn [res st evs fs command_prefixes command_cwds app].
  unfold with_stack, finally.
  erewrite bind_inr by reflexivity. unfold bind. rewrite run_unfold.
  cbn [res st evs fs command_prefixes command_cwds app].
  assert (Hline : ∀ g,
    prefix_commands
      (State g
         (prefixes_of (source_nvm cfg ::
            (if is_file f (NVMRC_PATH cfg) then [Prefix "nvm use"] else []) ++ [cd_clone cfg]))
         (dirs_of (source_nvm cfg ::
            (if is_file f (NVMRC_PATH cfg) then [Prefix "nvm use"] else []) ++ [cd_clone cfg])))
      "npm run federalist" = line).
  { intros g. subst line. unfold federalist_line.
    destruct (is_file f (NVMRC_PATH cfg)); cbn [prefixes_of dirs_of flat_map app source_nvm cd_clone];
      by rewrite prefix_commands_in_dir by apply truthy_render. }
  rewrite !Hline. fold code.
  destruct (code =? 0); cbn [ret res st evs app].
  all: match goal with
       | |- context [for_each leave ?l ?s'] =>
           destruct (silent_for_each_leave l s') as [He Hr]; rewrite ?He, ?Hr
       end.
  all: split; reflexivity.
Qed.

Lemma run_federalist_script_declared_witness :
  let s := State fs_scripted [] [] in
  let o := run_federalist_script cfg0 scripted_machine s in
  let line := federalist_line cfg0 (is_file (fs s) (NVMRC_PATH cfg0)) in
  let code := (shell scripted_machine (fs s) line ∅).1.1 in
  filter (fun e => is_run e = true) (evs o) =
    [ERun "npm run federalist" line ∅ code] ∧
  res o = (if code =? 0 then inr tt else inl (UnexpectedExit code)).
Proof.
  apply (run_federalist_script_declared cfg0 scripted_machine (State fs_scripted [] [])
           manifest_text
           [("scripts", JObject [("federalist", JString "make")])]
           [("federalist", JString "make")]); try reflexivity.
  cbn. apply elem_of_cons. by left.
Defined.

(** Without [.nvmrc] the script runs on the default node version. *)
Example run_federalist_script_default_node :
  commands (evs (run_federalist_script cfg0 scripted_machine (State fs_scripted [] []))) =
    ["npm run federalist"] ∧
  federalist_line cfg0 (is_file fs_scripted (NVMRC_PATH cfg0)) =
    "cd /work/site_repo && source /usr/local/nvm/nvm.sh && npm run federalist".
Proof. vm_compute. split; reflexivity. Qed.

(** ** A clone without a manifest *)

Lemma evs_bind {A B} (c : M A) (k : A → M B) (s : state) :
  evs (bind c k s) =
    evs (c s) ++ match res (c s) with
                 | inr a => evs (k a (st (c s)))
                 | inl _ => []
                 end.
Proof. unfold bind. destruct (res (c s)); cbn [evs]; by rewrite ?app_nil_r. Qed.

Lemma commands_app (l1 l2 : list event) : commands (l1 ++ l2) = commands l1 ++ commands l2.
Proof. apply flat_map_app. Qed.

Lemma keeps_with_cm {A} (p : path) (c : cm) (body : M A) :
  keeps p body → keeps p (with_cm c body).
Proof.
  intros Hb. unfold with_cm. apply keeps_bind; [apply keeps_enter|intros _].
  apply keeps_finally; [done|apply keeps_leave].
Qed.

Lemma run_federalist_script_no_manifest (cfg : config) (m : machine) (s : state) :
  is_file (fs s) (PACKAGE_JSON_PATH cfg) = false →
  run_federalist_script cfg m s =
    Outcome (inr tt) s [EIsFile (PACKAGE_JSON_PATH cfg) false].
Proof.
  intros H. unfold run_federalist_script, bind, path_is_file. cbn [res st evs].
  rewrite H. by cbn.
Qed.

(** X7: in a clone without [package.json], and with commands that do
    not create one, [invoke run_federalist_script] (which runs
    [setup_node] first) runs nothing but [nvm install] and the two
    version checks: no dependency is installed and no script is run. *)
Theorem no_manifest_no_npm (cfg : config) (m : machine) (s : state) :
  is_file (fs s) (PACKAGE_JSON_PATH cfg) = false →
  (∀ f line env,
     (shell m f line env).2 !! PACKAGE_JSON_PATH cfg = f !! PACKAGE_JSON_PATH cfg) →
  Forall (fun c => c ∈ version_commands)
         (commands (evs (execute cfg m RunFederalistScript s))).
Proof.
  intros Hno Hshell.
  assert (Hfile : ∀ f line env,
            is_file (shell m f line env).2 (PACKAGE_JSON_PATH cfg) =
            is_file f (PACKAGE_JSON_PATH cfg))
    by (intros; unfold is_file; by rewrite Hshell).
  assert (Horder : dedupe [] (expand_calls cfg 3 RunFederalistScript) =
                   [SetupNode; RunFederalistScript]).
  { cbn [expand_calls pre flat_map app dedupe].
    rewrite bool_decide_eq_false_2 by (by intros Hin%elem_of_nil).
    cbn [dedupe app].
    rewrite bool_decide_eq_false_2
      by (intros Hin%elem_of_cons; destruct Hin as [Hin|Hin%elem_of_nil]; done).
    done. }
  unfold execute. rewrite Horder. cbn [for_each body].
  rewrite evs_bind, commands_app. apply Forall_app. split.
  - clear Horder. destruct s as [f ps cw]. cbn [fs] in Hno.
    unfold setup_node. rewrite !evs_with_cm.
    cbn [enter st app cd_clone source_nvm fs command_prefixes command_cwds].
    erewrite evs_bind_inr by reflexivity. cbn [fs app].
    destruct (is_file f (NVMRC_PATH cfg));
      repeat (first [ rewrite bind_assoc
                    | rewrite evs_bind_run
                    | erewrite evs_bind_inr by reflexivity
                    | rewrite evs_with_cm
                    | rewrite evs_ret ];
              cbn [fs command_prefixes command_cwds st enter app];
              rewrite ?Hfile, ?Hno).
    all: repeat match goal with
         | |- context [if ?c =? 0 then _ else _] => destruct (c =? 0)
         end.
    all: cbn [commands flat_map app].
    all: repeat constructor; unfold version_commands; in_list.
  - destruct (res (setup_node cfg m s)) as [e|[]] eqn:Hres; [constructor|].
    assert (Hstill : is_file (fs (st (setup_node cfg m s))) (PACKAGE_JSON_PATH cfg) = false).
    { assert (Hk : keeps (PACKAGE_JSON_PATH cfg) (setup_node cfg m))
        by (unfold setup_node; repeat first [apply keeps_with_cm | keeps_step]; done).
      unfold is_file. rewrite (Hk s). exact Hno. }
    erewrite evs_bind_inr by (by apply run_federalist_script_no_manifest).
    constructor.
Qed.

Lemma no_manifest_no_npm_witness :
  Forall (fun c => c ∈ version_commands)
         (commands (evs (execute cfg0 quiet RunFederalistScript (State fs_plain [] [])))).
Proof.
  apply (no_manifest_no_npm cfg0 quiet (State fs_plain [] [])).
  - reflexivity.
  - intros f line env. reflexivity.
Defined.

(** ** A move that fails *)




(** ** Jekyll through bundler or on its own *)

Lemma evs_with_stack {A} (stack : list cm) (body : M A) (s : state) :
  evs (with_stack stack body s) = evs (body s).
Proof.
  unfold with_stack, finally. cbn [evs].
  destruct (silent_for_each_leave (rev stack) (st (body s))) as [He _].
  by rewrite He, app_nil_r.
Qed.

Lemma open_append_frame (p : path) (s : state) (old : string) :
  prior_contents (fs s) p = Some old →
  ∃ f1, open_append p s =
          Outcome (inr tt) (State f1 (command_prefixes s) (command_cwds s)) [] ∧
        f1 !! p = Some (RegFile old) ∧
        ∀ q, q ≠ p → f1 !! q = fs s !! q.
Proof.
  unfold prior_contents, open_append. intros H.
  destruct (fs s !! p) as [[c|]|] eqn:Hp.
  - exists (fs s). destruct s. by simplify_eq.
  - done.
  - destruct (dir_exists (fs s) (parent p)); [|done]. simplify_eq.
    eexists. split_and!; [done|by rewrite lookup_insert_eq|].
    intros q Hq. by rewrite lookup_insert_ne.
Qed.

Lemma gemfile_is_not_config (cfg : config) : GEMFILE_PATH cfg ≠ JEKYLL_CONF_YML_PATH cfg.
Proof. unfold GEMFILE_PATH, JEKYLL_CONF_YML_PATH. intros H. by apply app_inv_head in H. Qed.

(** As [evs_step], for a body under an [ExitStack], keeping what is
    known of each exit code. *)
Ltac evs_step_eq :=
  first
    [ rewrite bind_assoc
    | rewrite evs_with_stack
    | rewrite evs_bind_run;
      match goal with
      | |- context [shell ?m ?f ?l ?e] => destruct (shell m f l e) as [[? ?] ?]
      end;
      cbn [fst snd];
      match goal with
      | |- context [if ?c =? 0 then _ else _] => destruct (Z.eqb_spec c 0)
      end
    | erewrite evs_bind_inr by reflexivity
    | rewrite evs_ret ];
  cbn [fs command_prefixes command_cwds st app].

(** ** The generated environment *)

(** C7, as the code has it: the mapping [build_env] builds has exactly
    the five keys BRANCH, OWNER, REPOSITORY, SITE_PREFIX and BASEURL,
    each bound to the matching argument.  [build_jekyll], once it has
    opened [_config.yml], passes exactly this mapping as [env] to its
    build command and the empty mapping to every other command, and the
    build command is the last step unless an earlier command failed.
    pyinvoke does not start the subprocess with that mapping alone: it
    lays it over the variables of its own process, so the generator
    sees the five generated values and, under every other name, what
    the ambient environment holds. *)
Theorem build_env_passed_to_generator
    (cfg : config) (m : machine)
    (branch owner repository site_prefix config base_url : string)
    (s : state) (old : string) :
  prior_contents (fs s) (JEKYLL_CONF_YML_PATH cfg) = Some old →
  let env := build_env branch owner repository site_prefix base_url in
  let o := build_jekyll cfg m branch owner repository site_prefix config base_url s in
  dom env = list_to_set generated_names ∧
  env !! "BRANCH" = Some branch ∧
  env !! "OWNER" = Some owner ∧
  env !! "REPOSITORY" = Some repository ∧
  env !! "SITE_PREFIX" = Some site_prefix ∧
  env !! "BASEURL" = Some base_url ∧
  Forall (jekyll_env_ok cfg branch owner repository site_prefix base_url) (evs o) ∧
  ((∃ cmd line code, last (evs o) = Some (ERun cmd line env code) ∧
                     cmd ∈ jekyll_build_commands cfg) ∨
   (∃ cmd line code, last (evs o) = Some (ERun cmd line ∅ code) ∧ code ≠ 0 ∧
                     cmd ∈ jekyll_other_commands)) ∧
  (∀ environ k, k ∈ generated_names → generate_env environ env !! k = env !! k) ∧
  (∀ environ k, k ∉ generated_names → generate_env environ env !! k = environ !! k).
Proof.
  intros Hold env o.
  assert (Hdom : dom env = list_to_set generated_names).
  { subst env. unfold build_env, generated_names. cbn [list_to_map foldr uncurry list_to_set].
    rewrite !dom_insert_L, dom_empty_L. set_solver. }
  split; [exact Hdom|].
  do 5 (split; [subst env; unfold build_env; cbn [list_to_map foldr uncurry];
                by simplify_map_eq|]).
  match goal with
  | |- ?A ∧ ?B ∧ ?C ∧ ?D =>
      enough (Hmain : A ∧ B); [destruct Hmain as [Ha Hb]; split_and!; [done|done| |]|]
  end.
  - intros environ k Hk. unfold generate_env.
    assert (Hin : k ∈ dom env) by (rewrite Hdom; by apply elem_of_list_to_set).
    apply elem_of_dom in Hin as [v Hv]. rewrite Hv. by apply lookup_union_Some_l.
  - intros environ k Hk. unfold generate_env.
    assert (Hnone : env !! k = None).
    { apply not_elem_of_dom. rewrite Hdom. by rewrite elem_of_list_to_set. }
    by rewrite lookup_union_r.
  - subst o. unfold build_jekyll.
    destruct (open_append_ok _ s old Hold) as (f1 & Hopen & Hf1).
    erewrite bind_inr by exact Hopen. cbn [res st evs app].
    erewrite bind_inr by (by apply (for_each_write _ _ _ old)).
    cbn [res st evs fs command_prefixes command_cwds map].
    erewrite evs_bind_inr by apply node_context_outcome.
    cbn [fs command_prefixes command_cwds st app].
    rewrite evs_with_stack. erewrite evs_bind_inr by reflexivity.
    cbn [fs command_prefixes command_cwds st app].
    fold env.
    match goal with
    | |- context [is_file ?g (GEMFILE_PATH cfg)] => destruct (is_file g (GEMFILE_PATH cfg))
    end; repeat evs_step_eq.
    all: split.
    all: try (repeat first [apply Forall_nil_2 | apply Forall_cons_2];
              cbn [jekyll_env_ok]; try exact I;
              first [ right; split; [unfold jekyll_other_commands; in_list|reflexivity]
                    | left; split; [unfold jekyll_build_commands; in_list|reflexivity] ]).
    all: first [ left; eexists _, _, _; split; [reflexivity|unfold jekyll_build_commands; in_list]
               | right; eexists _, _, _; split_and!;
                 [reflexivity|eassumption|unfold jekyll_other_commands; in_list] ].
Qed.

Lemma build_env_passed_to_generator_witness :
  let env := build_env "main" "owner" "repo" "site/owner/repo" "/x" in
  let o := build_jekyll cfg0 quiet "main" "owner" "repo" "site/owner/repo" "" "/x" s0 in
  dom env = list_to_set generated_names ∧
  env !! "BRANCH" = Some "main" ∧
  env !! "OWNER" = Some "owner" ∧
  env !! "REPOSITORY" = Some "repo" ∧
  env !! "SITE_PREFIX" = Some "site/owner/repo" ∧
  env !! "BASEURL" = Some "/x" ∧
  Forall (jekyll_env_ok cfg0 "main" "owner" "repo" "site/owner/repo" "/x") (evs o) ∧
  ((∃ cmd line code, last (evs o) = Some (ERun cmd line env code) ∧
                     cmd ∈ jekyll_build_commands cfg0) ∨
   (∃ cmd line code, last (evs o) = Some (ERun cmd line ∅ code) ∧ code ≠ 0 ∧
                     cmd ∈ jekyll_other_commands)) ∧
  (∀ environ k, k ∈ generated_names → generate_env environ env !! k = env !! k) ∧
  (∀ environ k, k ∉ generated_names → generate_env environ env !! k = environ !! k).
Proof.
  apply (build_env_passed_to_generator cfg0 quiet "main" "owner" "repo" "site/owner/repo"
           "" "/x" s0 ("title: x" +:+ nl)).
  reflexivity.
Defined.

(** C7 as stated fails: the process that runs the build has [HOME] set,
    [build_env] does not bind it, and the generator that [build_jekyll]
    starts finds it among its variables all the same (it exits with
    code 3, which ends the task). *)
Lemma generator_inherits_ambient_variable :
  let env := build_env "main" "owner" "repo" "site/owner/repo" "/x" in
  let o := build_jekyll cfg0 home_machine "main" "owner" "repo" "site/owner/repo" "" "/x" s0 in
  env !! "HOME" = None ∧
  generate_env home_environ env !! "HOME" = Some "/root" ∧
  last (evs o) =
    Some (ERun "jekyll build --destination _site"
               "cd /work/site_repo && source /usr/local/nvm/nvm.sh && source /usr/local/rvm/scripts/rvm && jekyll build --destination _site"
               env 3) ∧
  res o = inl (UnexpectedExit 3).
Proof. vm_compute. repeat split. Qed.

(** With the Jekyll gem installed directly, a successful [build_jekyll]
    hands the five variables to the one [build] command and nothing to
    the others. *)
Example build_jekyll_generator_env :
  let o := build_jekyll cfg0 quiet "main" "owner" "repo" "site/owner/repo" "" "/x" s0 in
  res o = inr tt ∧
  flat_map (fun e => match e with ERun cmd _ env _ => [(cmd, env)] | _ => [] end) (evs o) =
    [("gem install jekyll", ∅);
     ("jekyll -v", ∅);
     ("jekyll build --destination _site",
      build_env "main" "owner" "repo" "site/owner/repo" "/x")].
Proof. vm_compute. split; reflexivity. Qed.

(** ** The commands of the Jekyll build *)

(** X9: [build_jekyll] picks its commands by whether the clone holds
    a [Gemfile] when the task starts.  If it is a file, the commands
    are [gem install bundler], [bundle install], [bundle exec jekyll -v]
    and [bundle exec jekyll build --destination <SITE_BUILD_DIR>];
    otherwise they are [gem install jekyll], [jekyll -v] and
    [jekyll build --destination <SITE_BUILD_DIR>].  They are run in
    that order up to the first one that fails, and all of them when
    none fails. *)
Theorem build_jekyll_generator_choice
    (cfg : config) (m : machine)
    (branch owner repository site_prefix config base_url : string)
    (s : state) (old : string) :
  prior_contents (fs s) (JEKYLL_CONF_YML_PATH cfg) = Some old →
  let o := build_jekyll cfg m branch owner repository site_prefix config base_url s in
  let expected :=
    if is_file (fs s) (GEMFILE_PATH cfg)
    then bundler_commands cfg else direct_commands cfg in
  commands (evs o) `prefix_of` expected ∧
  (Forall run_ok (evs o) → commands (evs o) = expected).
Proof.
  intros Hold o. subst o.
  unfold build_jekyll.
  destruct (open_append_frame _ s old Hold) as (f1 & Hopen & Hf1 & Hframe).
  erewrite bind_inr by exact Hopen. cbn [res st evs app].
  erewrite bind_inr by (by apply (for_each_write _ _ _ old)).
  cbn [res st evs fs command_prefixes command_cwds map].
  erewrite evs_bind_inr by apply node_context_outcome.
  cbn [fs command_prefixes command_cwds st app].
  rewrite evs_with_stack. erewrite evs_bind_inr by reflexivity.
  cbn [fs command_prefixes command_cwds st app].
  assert (Hgem : ∀ c, is_file (<[JEKYLL_CONF_YML_PATH cfg := RegFile c]> f1) (GEMFILE_PATH cfg) =
                      is_file (fs s) (GEMFILE_PATH cfg)).
  { intros c. unfold is_file.
    rewrite lookup_insert_ne by (apply not_eq_sym, gemfile_is_not_config).
    by rewrite Hframe by apply gemfile_is_not_config. }
  rewrite !Hgem.
  destruct (is_file (fs s) (GEMFILE_PATH cfg)); repeat evs_step_eq.
  all: cbn [commands flat_map app].
  all: split; [by eexists|].
  all: intros HF; first [reflexivity|exfalso].
  all: rewrite !Forall_cons in HF; cbn [run_ok] in HF; tauto.
Qed.

Lemma build_jekyll_generator_choice_witness :
  let o := build_jekyll cfg0 quiet "main" "owner" "repo" "site/owner/repo" "" "/x"
             (State fs_ruby [] []) in
  let expected :=
    if is_file fs_ruby (GEMFILE_PATH cfg0)
    then bundler_commands cfg0 else direct_commands cfg0 in
  commands (evs o) `prefix_of` expected ∧
  (Forall run_ok (evs o) → commands (evs o) = expected).
Proof.
  apply (build_jekyll_generator_choice cfg0 quiet "main" "owner" "repo" "site/owner/repo"
           "" "/x" (State fs_ruby [] []) ("title: x" +:+ nl)).
  reflexivity.
Defined.

(** With a [Gemfile] and no failure, all four bundler commands run. *)
Example build_jekyll_through_bundler :
  commands (evs (build_jekyll cfg0 quiet "main" "owner" "repo" "site/owner/repo" "" "/x"
                   (State fs_ruby [] []))) =
    ["gem install bundler"; "bundle install"; "bundle exec jekyll -v";
     "bundle exec jekyll build --destination _site"].
Proof. vm_compute. reflexivity. Qed.

(** ** The shell lines of the Jekyll build *)

Lemma nvmrc_is_not_config (cfg : config) : NVMRC_PATH cfg ≠ JEKYLL_CONF_YML_PATH cfg.
Proof. unfold NVMRC_PATH, JEKYLL_CONF_YML_PATH. intros H. by apply app_inv_head in H. Qed.

(** X10: every command of [build_jekyll], started on a fresh context
    with a [_config.yml] it can append to, is run inside the clone
    directory, after sourcing nvm, then [nvm use] exactly when [.nvmrc]
    is a file, then sourcing rvm: the line handed to the shell is
    [cd <clone> && source <nvm.sh> && [nvm use &&] source <rvm> && <command>],
    where the spaces of the clone path are escaped. *)
Theorem build_jekyll_shell_lines
    (cfg : config) (m : machine)
    (branch owner repository site_prefix config base_url : string)
    (s : state) (old : string) :
  command_prefixes s = [] →
  command_cwds s = [] →
  prior_contents (fs s) (JEKYLL_CONF_YML_PATH cfg) = Some old →
  let o := build_jekyll cfg m branch owner repository site_prefix config base_url s in
  Forall (jekyll_line_ok cfg (is_file (fs s) (NVMRC_PATH cfg))) (evs o).
Proof.
  intros Hp Hw Hold o. subst o.
  destruct s as [f ps cw]. cbn [fs command_prefixes command_cwds] in *. subst ps cw.
  unfold build_jekyll.
  destruct (open_append_frame _ (State f [] []) old Hold) as (f1 & Hopen & Hf1 & Hframe).
  cbn [fs command_prefixes command_cwds] in *.
  erewrite bind_inr by exact Hopen. cbn [res st evs app].
  erewrite bind_inr by (by apply (for_each_write _ _ _ old)).
  cbn [res st evs fs command_prefixes command_cwds map].
  erewrite evs_bind_inr by apply node_context_outcome.
  cbn [fs command_prefixes command_cwds st app].
  assert (Hpin : ∀ c, is_file (<[JEKYLL_CONF_YML_PATH cfg := RegFile c]> f1) (NVMRC_PATH cfg) =
                      is_file f (NVMRC_PATH cfg)).
  { intros c. unfold is_file.
    rewrite lookup_insert_ne by (apply not_eq_sym, nvmrc_is_not_config).
    by rewrite Hframe by apply nvmrc_is_not_config. }
  rewrite !Hpin. rewrite evs_with_stack.
  destruct (is_file f (NVMRC_PATH cfg));
    cbn [prefixes_of dirs_of flat_map app source_nvm source_rvm cd_clone];
    erewrite evs_bind_inr by reflexivity;
    cbn [fs command_prefixes command_cwds st app];
    match goal with
    | |- context [is_file ?g (GEMFILE_PATH cfg)] => destruct (is_file g (GEMFILE_PATH cfg))
    end; repeat evs_step.
  all: repeat constructor.
Qed.

Lemma build_jekyll_shell_lines_witness :
  let o := build_jekyll cfg0 quiet "main" "owner" "repo" "site/owner/repo" "" "/x" s0 in
  Forall (jekyll_line_ok cfg0 (is_file (fs s0) (NVMRC_PATH cfg0))) (evs o).
Proof.
  apply (build_jekyll_shell_lines cfg0 quiet "main" "owner" "repo" "site/owner/repo"
           "" "/x" s0 ("title: x" +:+ nl)); reflexivity.
Defined.

(** ** The shell lines of the Hugo build *)

Lemma Forall_appends (P : event → Prop) (p : path) (l : list string) :
  (∀ d, P (EAppend p d)) → Forall P (map (EAppend p) l).
Proof. intros H. induction l; constructor; auto. Qed.

Lemma not_hugo_build_dpkg (x : string) :
  String.prefix "hugo --source" ("dpkg -i " +:+ x) = false.
Proof. reflexivity. Qed.

Lemma hugo_build_prefix (x : string) :
  String.prefix "hugo --source" ("hugo " +:+ "--source . --destination " +:+ x) = true.
Proof. reflexivity. Qed.

Lemma hugo_build_prefix_flag (x y : string) :
  String.prefix "hugo --source" ("hugo " +:+ ("--source . --destination " +:+ x) +:+ y) = true.
Proof. reflexivity. Qed.

Lemma prefix_commands_bare (f : gmap (list string) node) (cmd : string) :
  prefix_commands (State f [] []) cmd = cmd.
Proof. reflexivity. Qed.

(** X11: in [build_hugo], started on a fresh context, the package
    install ([dpkg -i]) and [hugo version] are handed to the shell
    bare, with no directory change and no nvm; only the build command
    runs inside the clone directory (its spaces escaped) after sourcing
    nvm, with [nvm use] exactly when [.nvmrc] is a file in the file
    system those two commands leave behind. *)
Theorem build_hugo_shell_lines
    (cfg : config) (m : machine)
    (branch owner repository site_prefix base_url hugo_version : string)
    (s : state) (r : response) :
  command_prefixes s = [] →
  command_cwds s = [] →
  requests_get m (hugo_url hugo_version) = inr r →
  writable (fs s) (hugo_deb cfg) = true →
  let o := build_hugo cfg m branch owner repository site_prefix base_url hugo_version s in
  let downloaded := <[hugo_deb cfg := RegFile (content r)]> (fs s) in
  let installed := (shell m downloaded ("dpkg -i " +:+ render (hugo_deb cfg)) ∅).2 in
  let checked := (shell m installed "hugo version" ∅).2 in
  Forall (hugo_line_ok cfg (is_file checked (NVMRC_PATH cfg))) (evs o).
Proof.
  intros Hp Hw Hget Hwr o downloaded installed checked. subst o.
  destruct s as [f ps cw]. cbn [fs command_prefixes command_cwds] in *. subst ps cw.
  unfold build_hugo, install_hugo. rewrite !bind_assoc.
  erewrite evs_bind_inr by reflexivity.
  rewrite bind_assoc.
  erewrite evs_bind_inr by (unfold http_get; rewrite Hget; reflexivity).
  rewrite bind_assoc.
  erewrite evs_bind_inr by (by apply open_write_ok).
  cbn [fs command_prefixes command_cwds].
  rewrite bind_assoc.
  erewrite evs_bind_inr
    by (apply for_each_write with (c0 := ""); cbn; by rewrite lookup_insert_eq).
  cbn [fs command_prefixes command_cwds].
  rewrite concat_iter_slices, insert_insert_eq. change ("" +:+ content r) with (content r).
  fold downloaded.
  repeat (first [ rewrite bind_assoc
                | rewrite evs_bind_run
                | erewrite evs_bind_inr by reflexivity
                | erewrite evs_bind_inr by apply node_context_outcome
                | rewrite evs_with_stack
                | rewrite evs_ret ];
          cbn [fs command_prefixes command_cwds st app];
          rewrite ?prefix_commands_bare).
  fold installed. fold checked.
  destruct (is_file checked (NVMRC_PATH cfg));
    cbn [prefixes_of dirs_of flat_map app source_nvm cd_clone];
    rewrite ?prefix_commands_in_dir by apply truthy_render.
  all: repeat match goal with
       | |- context [if ?c =? 0 then _ else _] => destruct (c =? 0)
       end.
  all: destruct (truthy base_url).
  all: repeat first [ apply Forall_nil_2
                    | apply Forall_cons_2
                    | apply Forall_app_2
                    | apply Forall_appends; intros ? ].
  all: cbn [hugo_line_ok];
       rewrite ?not_hugo_build_dpkg, ?hugo_build_prefix, ?hugo_build_prefix_flag.
  all: try exact I.
  all: reflexivity.
Qed.

Lemma build_hugo_shell_lines_witness :
  let o := build_hugo cfg0 quiet "main" "owner" "repo" "site/owner/repo" "/x" "0.23" s0 in
  let downloaded := <[hugo_deb cfg0 := RegFile "deb"]> fs0 in
  let installed := (shell quiet downloaded ("dpkg -i " +:+ render (hugo_deb cfg0)) ∅).2 in
  let checked := (shell quiet installed "hugo version" ∅).2 in
  Forall (hugo_line_ok cfg0 (is_file checked (NVMRC_PATH cfg0))) (evs o).
Proof.
  apply (build_hugo_shell_lines cfg0 quiet "main" "owner" "repo" "site/owner/repo" "/x"
           "0.23" s0 (Response 200 "deb")); reflexivity.
Defined.

(** The three lines of a successful Hugo build without [.nvmrc]. *)
Example build_hugo_lines :
  flat_map (fun e => match e with ERun _ line _ _ => [line] | _ => [] end)
    (evs (build_hugo cfg0 quiet "main" "owner" "repo" "site/owner/repo" "/x" "0.23" s0)) =
    ["dpkg -i /work/hugo.deb";
     "hugo version";
     "cd /work/site_repo && source /usr/local/nvm/nvm.sh && hugo --source . --destination _site --baseUrl /x"].
Proof. vm_compute. reflexivity. Qed.

(** ** The shell lines of the Node set-up *)

(** X12: every command of [setup_node], started on a fresh context,
    gets no variables and runs inside the clone directory (the spaces
    of its path escaped) after sourcing nvm; [nvm install] and the two
    version checks run without [nvm use], the production install with
    it. *)
Theorem setup_node_shell_lines (cfg : config) (m : machine) (s : state) :
  command_prefixes s = [] →
  command_cwds s = [] →
  Forall (setup_node_line_ok cfg) (evs (setup_node cfg m s)).
Proof.
  intros Hp Hw. destruct s as [f ps cw]. cbn in Hp, Hw. subst ps cw.
  unfold setup_node. rewrite !evs_with_cm.
  cbn [enter st app cd_clone source_nvm fs command_prefixes command_cwds].
  evs_step. destruct (is_file f (NVMRC_PATH cfg)); repeat evs_step.
  all: try match goal with
       | |- context [is_file ?g (PACKAGE_JSON_PATH ?c)] =>
           destruct (is_file g (PACKAGE_JSON_PATH c))
       end; repeat evs_step.
  all: repeat constructor.
Qed.

Lemma setup_node_shell_lines_witness :
  Forall (setup_node_line_ok cfg0) (evs (setup_node cfg0 quiet s0)).
Proof. apply (setup_node_shell_lines cfg0 quiet s0); reflexivity. Defined.

(** A clone directory with a space in its name reaches the shell with
    the space escaped. *)
Example setup_node_escapes_spaces :
  flat_map (fun e => match e with ERun _ line _ _ => [line] | _ => [] end)
    (evs (setup_node cfg_spaced quiet s0)) =
    ["cd /work/my\ site && source /usr/local/nvm/nvm.sh && node --version";
     "cd /work/my\ site && source /usr/local/nvm/nvm.sh && npm --version"].
Proof. vm_compute. reflexivity. Qed.

(** ** A static build that goes through *)




(** ** The tree a static build leaves *)

Lemma strip_prefix_app (c a b : path) : strip_prefix (c ++ a) (c ++ b) = strip_prefix a b.
Proof. induction c as [|x c IH]; [done|]. cbn. by rewrite String.eqb_refl. Qed.

Lemma strip_prefix_Some (d p r : path) : strip_prefix d p = Some r ↔ p = d ++ r.
Proof.
  revert p. induction d as [|a d IH]; intros p.
  - cbn. split; congruence.
  - destruct p as [|b p]; cbn; [split; discriminate|].
    destruct (String.eqb_spec a b) as [->|Hne].
    + rewrite IH. split; congruence.
    + split; [discriminate|congruence].
Qed.

Lemma strip_prefix_self_app (d r : path) : strip_prefix d (d ++ r) = Some r.
Proof. by apply strip_prefix_Some. Qed.

Lemma strip_prefix_None_below (d a p : path) :
  strip_prefix d p = None → strip_prefix (d ++ a) p = None.
Proof.
  intros H. destruct (strip_prefix (d ++ a) p) as [r|] eqn:Hr; [|done].
  apply strip_prefix_Some in Hr. rewrite <- app_assoc in Hr.
  apply strip_prefix_Some in Hr. congruence.
Qed.

Lemma strip_prefix_apart (src dst r : path) :
  strip_prefix src dst = None → strip_prefix dst src = None →
  strip_prefix src (dst ++ r) = None.
Proof.
  intros H1 H2. destruct (strip_prefix src (dst ++ r)) as [r'|] eqn:Hr; [|done].
  apply strip_prefix_Some in Hr. apply app_eq_inv in Hr as [(k & Hk & _)|(k & Hk & _)].
  - apply strip_prefix_Some in Hk. congruence.
  - apply strip_prefix_Some in Hk. congruence.
Qed.

Lemma rebase_involutive (src dst p : path) :
  strip_prefix src dst = None → strip_prefix dst src = None →
  rebase src dst (rebase src dst p) = p.
Proof.
  intros H1 H2. unfold rebase at 2.
  destruct (strip_prefix src p) as [r|] eqn:Hs.
  - apply strip_prefix_Some in Hs. subst p. unfold rebase.
    by rewrite strip_prefix_apart, strip_prefix_self_app.
  - destruct (strip_prefix dst p) as [r|] eqn:Hd.
    + apply strip_prefix_Some in Hd. subst p. unfold rebase.
      by rewrite strip_prefix_self_app.
    + unfold rebase. by rewrite Hs, Hd.
Qed.

Lemma os_rename_lookup (f : gmap (list string) node) (src dst p : path) :
  strip_prefix src dst = None → strip_prefix dst src = None →
  os_rename f src dst !! p =
    match strip_prefix dst p with
    | Some r => f !! (src ++ r)
    | None =>
        match strip_prefix src p with
        | Some _ => None
        | None => f !! p
        end
    end.
Proof.
  intros H1 H2.
  assert (Hinj : Inj (=) (=) (rebase src dst)).
  { intros x y Hxy. rewrite <- (rebase_involutive src dst x), <- (rebase_involutive src dst y)
      by done. by rewrite Hxy. }
  unfold os_rename.
  rewrite <- (rebase_involutive src dst p) at 1 by done.
  rewrite (lookup_kmap (rebase src dst)).
  rewrite map_lookup_filter. unfold rebase.
  destruct (strip_prefix dst p) as [r|] eqn:Hd.
  - apply strip_prefix_Some in Hd. subst p.
    rewrite (strip_prefix_apart src dst r) by done.
    destruct (f !! (src ++ r)) as [v|]; [|done]. cbn.
    rewrite option_guard_True; [done|]. cbn. by apply strip_prefix_apart.
  - destruct (strip_prefix src p) as [r|] eqn:Hs.
    + destruct (f !! (dst ++ r)) as [v|]; [|done]. cbn.
      rewrite option_guard_False; [done|]. cbn. by rewrite strip_prefix_self_app.
    + destruct (f !! p) as [v|]; [|done]. cbn.
      by rewrite option_guard_True.
Qed.

Lemma dir_is_empty_spec (f : gmap (list string) node) (d : path) (n : string) (r : path) :
  dir_is_empty f d = true → f !! (d ++ n :: r) = None.
Proof.
  unfold dir_is_empty. rewrite forallb_forall. intros H.
  destruct (f !! (d ++ n :: r)) as [v|] eqn:Hv; [|done].
  apply elem_of_map_to_list in Hv.
  assert (Hin : In (d ++ n :: r) (map fst (map_to_list f))).
  { apply in_map_iff. exists (d ++ n :: r, v). split; [done|]. by apply list_elem_of_In. }
  apply H in Hin. by rewrite strip_prefix_self_app in Hin.
Qed.

Lemma strip_one (c : path) (a b : string) (r : path) :
  strip_prefix (c ++ [a]) (c ++ b :: r) = if String.eqb a b then Some r else None.
Proof. rewrite strip_prefix_app. cbn. by destruct (String.eqb a b). Qed.

Lemma strip_two (c : path) (a1 a2 b1 b2 : string) (r : path) :
  strip_prefix (c ++ [a1; a2]) (c ++ b1 :: b2 :: r) =
    if String.eqb a1 b1 then if String.eqb a2 b2 then Some r else None else None.
Proof.
  rewrite strip_prefix_app. cbn.
  destruct (String.eqb a1 b1); [|done]. by destruct (String.eqb a2 b2).
Qed.

Lemma strip_two_one (c : path) (a1 a2 b : string) :
  strip_prefix (c ++ [a1; a2]) (c ++ [b]) = None.
Proof. rewrite strip_prefix_app. cbn. by destruct (String.eqb a1 b). Qed.

Lemma strip_two_ne (c : path) (a1 a2 b : string) (r : path) :
  a1 ≠ b → strip_prefix (c ++ [a1; a2]) (c ++ b :: r) = None.
Proof. intros H. rewrite strip_prefix_app. cbn. by apply String.eqb_neq in H as ->. Qed.

(** Decides [strip_prefix] on two paths below the same directory from
    what is known of their components. *)
Ltac strip_solve :=
  rewrite ?strip_two, ?strip_one, ?strip_two_one;
  rewrite ?strip_two_ne by congruence;
  repeat match goal with
         | |- context [String.eqb ?a ?a] => rewrite (String.eqb_refl a)
         | H : ?a ≠ ?b |- context [String.eqb ?a ?b] =>
             rewrite (proj2 (String.eqb_neq a b) H)
         | H : ?a ≠ ?b |- context [String.eqb ?b ?a] =>
             rewrite (proj2 (String.eqb_neq b a) (not_eq_sym H))
         end;
  try done.

(** One move of the loop: the entry [n] of the clone goes below the
    output directory [c ++ [o]]. *)
Lemma move_entry_lookup (f : gmap (list string) node) (c : path) (o n : string) (p : path) :
  n ≠ o →
  os_rename f (c ++ [n]) (c ++ [o; n]) !! p =
    match strip_prefix (c ++ [o; n]) p with
    | Some r => f !! (c ++ n :: r)
    | None =>
        match strip_prefix (c ++ [n]) p with
        | Some _ => None
        | None => f !! p
        end
    end.
Proof.
  intros Hne. rewrite os_rename_lookup.
  - destruct (strip_prefix (c ++ [o; n]) p) as [r|]; [|done].
    by rewrite <- app_assoc.
  - strip_solve.
  - strip_solve.
Qed.

Lemma move_loop_tree (cfg : config) (m : machine) (files : list pystr) (s : state) :
  SITE_BUILD_DIR_PATH cfg = CLONE_DIR_PATH cfg ++ [chars (SITE_BUILD_DIR cfg)] →
  (∀ f src dst, is_dir f dst = true → os_move m f src dst = move_into_dir f src dst) →
  is_dir (fs s) (SITE_BUILD_DIR_PATH cfg) = true →
  NoDup (chars <$> files) →
  Forall (fun x => py_is x (SITE_BUILD_DIR cfg) = true →
                   chars x = chars (SITE_BUILD_DIR cfg)) files →
  Forall (fun x => chars x ≠ chars (SITE_BUILD_DIR cfg) →
                   is_Some (fs s !! (CLONE_DIR_PATH cfg ++ [chars x])) ∧
                   fs s !! (CLONE_DIR_PATH cfg ++ [chars (SITE_BUILD_DIR cfg); chars x]) = None)
         files →
  let o := for_each (fun file =>
    if negb (py_is file (SITE_BUILD_DIR cfg))
    then shutil_move m (CLONE_DIR_PATH cfg ++ [chars file]) (SITE_BUILD_DIR_PATH cfg)
    else ret tt) files s in
  res o = inr tt ∧
  (∀ x r, x ∈ files → chars x ≠ chars (SITE_BUILD_DIR cfg) →
     fs (st o) !! (CLONE_DIR_PATH cfg ++ chars (SITE_BUILD_DIR cfg) :: chars x :: r) =
       fs s !! (CLONE_DIR_PATH cfg ++ chars x :: r) ∧
     fs (st o) !! (CLONE_DIR_PATH cfg ++ chars x :: r) = None) ∧
  (∀ p, (∀ x, x ∈ files → chars x ≠ chars (SITE_BUILD_DIR cfg) →
           strip_prefix (CLONE_DIR_PATH cfg ++ [chars x]) p = None ∧
           strip_prefix (CLONE_DIR_PATH cfg ++ [chars (SITE_BUILD_DIR cfg); chars x]) p = None) →
        fs (st o) !! p = fs s !! p).
Proof.
  intros Hout Hmove. rewrite Hout.
  set (c := CLONE_DIR_PATH cfg). set (o := chars (SITE_BUILD_DIR cfg)).
  revert s. induction files as [|x rest IH]; intros s Hdir Hnd Hid Hpre.
  { cbn. split_and!; [done| |done]. intros x r Hin. by apply elem_of_nil in Hin. }
  apply NoDup_cons in Hnd as [Hfresh Hnd]. cbn [fmap list_fmap] in Hfresh, Hnd.
  apply Forall_cons in Hid as [Hidx Hid]. apply Forall_cons in Hpre as [Hprex Hpre].
  cbn [for_each].
  destruct (decide (chars x = o)) as [Hxo|Hxo].
  - (* named like the output directory: skipped, or renamed onto itself *)
    assert (Hstep : ∃ ev, (if negb (py_is x (SITE_BUILD_DIR cfg))
                           then shutil_move m (c ++ [chars x]) (c ++ [o])
                           else ret tt) s = Outcome (inr tt) s ev).
    { destruct (py_is x (SITE_BUILD_DIR cfg)); cbn [negb]; [by eexists|].
      unfold shutil_move. rewrite Hmove by done. unfold move_into_dir.
      rewrite Hxo, bool_decide_eq_true_2 by done. destruct s. by eexists. }
    destruct Hstep as [ev Hstep].
    erewrite bind_inr by exact Hstep. cbn [res st].
    destruct (IH s Hdir Hnd Hid Hpre) as (Hr & Hmoved & Hframe).
    split_and!; [done| |].
    + intros y r Hin Hy. apply elem_of_cons in Hin as [->|Hin]; [done|]. by apply Hmoved.
    + intros p Hp. apply Hframe. intros y Hin Hy. apply Hp; [by right|done].
  - (* any other entry: moved below the output directory *)
    destruct (Hprex Hxo) as [[v Hv] Hfree].
    assert (Hpy : py_is x (SITE_BUILD_DIR cfg) = false).
    { destruct (py_is x (SITE_BUILD_DIR cfg)) eqn:E; [|done]. by destruct Hxo; apply Hidx. }
    rewrite Hpy. cbn [negb].
    set (f2 := os_rename (fs s) (c ++ [chars x]) (c ++ [o; chars x])).
    assert (Hstep : shutil_move m (c ++ [chars x]) (c ++ [o]) s =
                    Outcome (inr tt) (State f2 (command_prefixes s) (command_cwds s))
                      [EMove (c ++ [chars x]) (c ++ [o])]).
    { unfold shutil_move. rewrite Hmove by done. unfold move_into_dir.
      rewrite bool_decide_eq_false_2
        by (intros Heq; apply app_inv_head in Heq; congruence).
      unfold basename. rewrite last_snoc. cbn [default from_option id].
      rewrite <- app_assoc. cbn [app]. rewrite Hfree, Hv.
      assert (Hs : strip_prefix (c ++ [chars x]) (c ++ [o]) = None) by strip_solve.
      rewrite Hs. by destruct v. }
    erewrite bind_inr by exact Hstep. cbn [res st].
    assert (Hkeep : ∀ q, strip_prefix (c ++ [o; chars x]) q = None →
                         strip_prefix (c ++ [chars x]) q = None → f2 !! q = fs s !! q).
    { intros q H1 H2. subst f2. by rewrite move_entry_lookup, H1, H2. }
    assert (Hne : ∀ y, y ∈ rest → chars y ≠ chars x).
    { intros y Hin Heq. apply Hfresh. rewrite <- Heq. by apply list_elem_of_fmap_2. }
    destruct (IH (State f2 (command_prefixes s) (command_cwds s))) as (Hr & Hmoved & Hframe).
    + cbn [fs]. unfold is_dir in *. rewrite Hkeep; [done|strip_solve|strip_solve].
    + done.
    + done.
    + cbn [fs]. apply Forall_forall. intros y Hin Hy.
      rewrite Forall_forall in Hpre. destruct (Hpre y Hin Hy) as [Hy1 Hy2].
      specialize (Hne y Hin).
      rewrite !Hkeep; [done|strip_solve..].
    + cbn [fs] in *. split_and!; [done| |].
      * intros y r Hin Hy. apply elem_of_cons in Hin as [->|Hin].
        -- rewrite !Hframe.
           ++ subst f2. rewrite !move_entry_lookup by done. by strip_solve.
           ++ intros z Hz Hzo. specialize (Hne z Hz). split; strip_solve.
           ++ intros z Hz Hzo. specialize (Hne z Hz). split; strip_solve.
        -- specialize (Hne y Hin). destruct (Hmoved y r Hin Hy) as [H1 H2].
           split; [|done]. rewrite H1. apply Hkeep; strip_solve.
      * intros p Hp. rewrite Hframe.
        -- destruct (Hp x) as [H1 H2]; [by left|done|]. by apply Hkeep.
        -- intros y Hin Hy. apply Hp; [by right|done].
Qed.

Lemma makedirs_from_creates (f : gmap (list string) node) walked todo f' :
  makedirs_from f walked todo = inr f' → f' !! (walked ++ todo) = Some Directory.
Proof.
  revert f walked. induction todo as [|c rest IH]; intros f walked Hmk; [done|].
  destruct rest as [|c' rest'].
  - cbn in Hmk. destruct (f !! (walked ++ [c])) as [[content|]|]; try done.
    simplify_eq. by rewrite lookup_insert_eq.
  - assert (Hstep : walked ++ c :: c' :: rest' = (walked ++ [c]) ++ c' :: rest')
      by (by rewrite <- app_assoc).
    rewrite Hstep. cbn [makedirs_from] in Hmk.
    destruct (f !! (walked ++ [c])) as [[content|]|]; [done| |]; by apply IH in Hmk.
Qed.

Lemma strip_prefix_outside (d p : path) : ¬ d `prefix_of` p → strip_prefix d p = None.
Proof.
  intros H. destruct (strip_prefix d p) as [r|] eqn:Hr; [|done].
  apply strip_prefix_Some in Hr. destruct H. by exists r.
Qed.

(** C1: with the output directory inside the clone under the name
    [SITE_BUILD_DIR], just created and empty, and [shutil.move] as the
    standard library has it, [build_static] returns normally and leaves
    every listed entry whose name is not the output directory's below
    the output directory, with all that it held, and no longer in the
    clone; the output directory is still where it was and holds no
    entry of its own name, so it was not moved into itself; nothing
    outside the clone changed.  This holds whether the guard skips the
    entry named like the output directory or hands it to
    [shutil.move], which then renames it onto itself. *)
Theorem build_static_moves_children (cfg : config) (m : machine) (s : state)
    (created : gmap (list string) node) (files : list pystr) :
  SITE_BUILD_DIR_PATH cfg = CLONE_DIR_PATH cfg ++ [chars (SITE_BUILD_DIR cfg)] →
  makedirs_from (fs s) [] (SITE_BUILD_DIR_PATH cfg) = inr created →
  dir_is_empty created (SITE_BUILD_DIR_PATH cfg) = true →
  os_listdir m created (CLONE_DIR_PATH cfg) = inr files →
  NoDup (chars <$> files) →
  Forall (fun x => is_Some (created !! (CLONE_DIR_PATH cfg ++ [chars x]))) files →
  Forall (fun x => py_is x (SITE_BUILD_DIR cfg) = true →
                   chars x = chars (SITE_BUILD_DIR cfg)) files →
  (∀ f src dst, is_dir f dst = true → os_move m f src dst = move_into_dir f src dst) →
  let o := build_static cfg m s in
  res o = inr tt ∧
  (∀ x r, x ∈ files → chars x ≠ chars (SITE_BUILD_DIR cfg) →
     fs (st o) !! (SITE_BUILD_DIR_PATH cfg ++ chars x :: r) =
       created !! (CLONE_DIR_PATH cfg ++ chars x :: r) ∧
     fs (st o) !! (CLONE_DIR_PATH cfg ++ chars x :: r) = None) ∧
  fs (st o) !! SITE_BUILD_DIR_PATH cfg = Some Directory ∧
  (∀ r, fs (st o) !! (SITE_BUILD_DIR_PATH cfg ++ chars (SITE_BUILD_DIR cfg) :: r) = None) ∧
  (∀ p, ¬ CLONE_DIR_PATH cfg `prefix_of` p → fs (st o) !! p = created !! p).
Proof.
  intros Hout Hmk Hempty Hls Hnd Hexist Hid Hmove o. subst o. unfold build_static.
  erewrite bind_inr by reflexivity. cbn [res st evs].
  erewrite bind_inr by (unfold os_makedirs; rewrite Hmk; reflexivity). cbn [res st evs].
  erewrite bind_inr by (unfold listdir; cbn [fs]; rewrite Hls; reflexivity).
  cbn [res st evs].
  pose proof (makedirs_from_creates _ _ _ _ Hmk) as Hdir. cbn [app] in Hdir.
  match goal with |- context [for_each ?body files ?s1] =>
    destruct (move_loop_tree cfg m files s1) as (Hr & Hmoved & Hframe)
  end; try done.
  { cbn [fs]. unfold is_dir. by rewrite Hdir. }
  { cbn [fs]. apply Forall_forall. intros x Hin Hx.
    rewrite Forall_forall in Hexist. split; [by apply Hexist|].
    pose proof (dir_is_empty_spec created _ (chars x) [] Hempty) as He.
    rewrite Hout, <- app_assoc in He. exact He. }
  cbn [fs] in *. rewrite Hout in *.
  set (c := CLONE_DIR_PATH cfg) in *. set (o := chars (SITE_BUILD_DIR cfg)) in *.
  split_and!.
  - done.
  - intros x r Hin Hx. rewrite <- app_assoc. cbn [app]. by apply Hmoved.
  - rewrite Hframe; [done|]. intros x Hin Hx. split; strip_solve.
  - intros r. rewrite <- app_assoc. cbn [app]. rewrite Hframe.
    + pose proof (dir_is_empty_spec created _ o r Hempty) as He.
      by rewrite <- app_assoc in He.
    + intros x Hin Hx. split; strip_solve.
  - intros p Hp. apply Hframe. intros x Hin Hx.
    split; by apply strip_prefix_None_below, strip_prefix_outside.
Qed.

Lemma build_static_moves_children_witness :
  let o := build_static cfg0 posix_machine (State fs_static [] []) in
  let created := <[SITE_BUILD_DIR_PATH cfg0 := Directory]> fs_static in
  res o = inr tt ∧
  (∀ x r, x ∈ clone_listing → chars x ≠ chars (SITE_BUILD_DIR cfg0) →
     fs (st o) !! (SITE_BUILD_DIR_PATH cfg0 ++ chars x :: r) =
       created !! (CLONE_DIR_PATH cfg0 ++ chars x :: r) ∧
     fs (st o) !! (CLONE_DIR_PATH cfg0 ++ chars x :: r) = None) ∧
  fs (st o) !! SITE_BUILD_DIR_PATH cfg0 = Some Directory ∧
  (∀ r, fs (st o) !! (SITE_BUILD_DIR_PATH cfg0 ++ chars (SITE_BUILD_DIR cfg0) :: r) = None) ∧
  (∀ p, ¬ CLONE_DIR_PATH cfg0 `prefix_of` p → fs (st o) !! p = created !! p).
Proof.
  apply (build_static_moves_children cfg0 posix_machine (State fs_static [] [])
           (<[SITE_BUILD_DIR_PATH cfg0 := Directory]> fs_static) clone_listing).
  - reflexivity.
  - reflexivity.
  - vm_compute. reflexivity.
  - reflexivity.
  - cbn. repeat (apply NoDup_cons_2; [intros Hin; not_in_list Hin|]). apply NoDup_nil_2.
  - repeat constructor; eexists; reflexivity.
  - repeat constructor; intros H; vm_compute in H; discriminate.
  - intros f src dst _. reflexivity.
Defined.

(** The tree after the static build of [fs_static]: [a.txt] and [b]
    with its file are below [_site], [_site] is where it was and holds
    no [_site], and the clone holds nothing else.  The entry [_site]
    of the listing was handed to [shutil.move] all the same: the guard
    compares objects, and [os.listdir] returns new ones. *)
Example build_static_tree :
  let f := fs (st (build_static cfg0 posix_machine (State fs_static [] []))) in
  f !! ["work"; "site_repo"; "_site"] = Some Directory ∧
  f !! ["work"; "site_repo"; "_site"; "a.txt"] = Some (RegFile "hello") ∧
  f !! ["work"; "site_repo"; "_site"; "b"] = Some Directory ∧
  f !! ["work"; "site_repo"; "_site"; "b"; "c.txt"] = Some (RegFile "nested") ∧
  f !! ["work"; "site_repo"; "_site"; "_site"] = None ∧
  f !! ["work"; "site_repo"; "a.txt"] = None ∧
  f !! ["work"; "site_repo"; "b"] = None ∧
  f !! ["work"; "site_repo"; "b"; "c.txt"] = None ∧
  filter (fun e => is_move e = true)
         (evs (build_static cfg0 posix_machine (State fs_static [] []))) =
    [EMove ["work"; "site_repo"; "a.txt"] ["work"; "site_repo"; "_site"];
     EMove ["work"; "site_repo"; "b"] ["work"; "site_repo"; "_site"];
     EMove ["work"; "site_repo"; "_site"] ["work"; "site_repo"; "_site"]].
Proof. vm_compute. repeat split. Qed.

(** ** A failing prerequisite of the Jekyll build *)

Lemma for_each_raises {A} (f : A → M unit) (l1 l2 : list A) (s : state) (e : exn) :
  res (for_each f l1 s) = inl e →
  for_each f (l1 ++ l2) s = for_each f l1 s.
Proof.
  revert s. induction l1 as [|x rest IH]; intros s Hres; [done|].
  cbn [app for_each] in *. unfold bind in *.
  destruct (res (f x s)) as [e'|[]]; [done|]. cbn [res] in Hres.
  by rewrite (IH _ Hres).
Qed.

(** X14: [_config.yml] is written only after the prerequisites of
    [build_jekyll] have gone through.  When [setup_node],
    [run_federalist_script] or [setup_ruby] raises, [invoke
    build_jekyll] ends with that exception and with the steps of the
    prerequisites alone, none of which is a write of the module to a
    file. *)
Theorem build_jekyll_prerequisite_fails
    (cfg : config) (m : machine)
    (branch owner repository site_prefix config base_url : string)
    (s : state) (e : exn) :
  res (for_each (body cfg m) jekyll_prerequisites s) = inl e →
  let o := execute cfg m
             (BuildJekyll branch owner repository site_prefix config base_url) s in
  o = for_each (body cfg m) jekyll_prerequisites s ∧
  res o = inl e ∧
  Forall not_a_write (evs o).
Proof.
  intros Hres o.
  assert (Ho : o = for_each (body cfg m) jekyll_prerequisites s).
  { subst o. unfold execute.
    assert (Horder : dedupe [] (expand_calls cfg 3
                       (BuildJekyll branch owner repository site_prefix config base_url)) =
                     jekyll_prerequisites ++
                     [BuildJekyll branch owner repository site_prefix config base_url]).
    { cbn [expand_calls pre flat_map app dedupe].
      repeat (rewrite bool_decide_eq_false_2;
              [|intros Hin; repeat (apply elem_of_cons in Hin as [Hin|Hin]; [discriminate|]);
                by apply elem_of_nil in Hin]; cbn [dedupe app]).
      done. }
    rewrite Horder. by apply for_each_raises with (e := e). }
  split; [done|]. rewrite Ho. split; [done|].
  clear Hres Ho. clear o. revert s.
  change (emits not_a_write (for_each (body cfg m) jekyll_prerequisites)).
  unfold jekyll_prerequisites. cbn [for_each body].
  unfold setup_node, run_federalist_script, has_federalist_script, setup_ruby.
  repeat emits_step; exact I.
Qed.

Lemma build_jekyll_prerequisite_fails_witness :
  let o := execute cfg0 quiet
             (BuildJekyll "main" "owner" "repo" "site/owner/repo" "" "/x") s0 in
  o = for_each (body cfg0 quiet) jekyll_prerequisites s0 ∧
  res o = inl JSONDecodeError ∧
  Forall not_a_write (evs o).
Proof.
  apply (build_jekyll_prerequisite_fails cfg0 quiet "main" "owner" "repo" "site/owner/repo"
           "" "/x" s0 JSONDecodeError).
  vm_compute. reflexivity.
Defined.
